(** * k6 [run] command: source resolution, option merge, collector
      selection and exit status

    A shallow embedding of [run.go] (package [main]).  Go strings and byte
    slices are [string]s (sequences of bytes); [int64] values are [Z] (no
    arithmetic is performed on them here, so no wrap-around is involved);
    a Go [error] result is an explicit [result].  Everything [run.go] calls
    outside of the file (the Go standard library, the operating system, the
    runner, collector and engine packages) is gathered in the class
    [World]. *)

From Stdlib Require Import String Ascii List ZArith Bool.
From Stdlib Require Import SpecFloat Lia.
Import ListNotations.

Local Open Scope Z_scope.
Local Open Scope string_scope.

(** ** Errors *)

(** A Go [error] value as [run.go] produces it: either a plain error
    ([errors.New], or an error handed back by a library) or a
    [cli.ExitError] carrying an exit code. *)
Inductive error : Type :=
| errors_New (msg : string)
| NewExitError (msg : string) (code : Z).

(** [err.Error()] *)
Definition Error (e : error) : string :=
  match e with
  | errors_New msg => msg
  | NewExitError msg _ => msg
  end.

(** [(T, error)] results of functions of [run.go]. *)
Inductive result (A : Type) : Type :=
| Ok (a : A)
| Err (e : error).
Arguments Ok {A} a.
Arguments Err {A} e.

(** Results of the libraries [run.go] calls.  None of those packages
    depends on the [cli] package, so a failure is a plain error, here its
    message. *)
Inductive fallible (A : Type) : Type :=
| Success (a : A)
| Failure (msg : string).
Arguments Success {A} a.
Arguments Failure {A} msg.

Definition plain {A : Type} (r : fallible A) : result A :=
  match r with
  | Success a => Ok a
  | Failure msg => Err (errors_New msg)
  end.

Definition bind {A B : Type} (r : result A) (k : A -> result B) : result B :=
  match r with
  | Ok a => k a
  | Err e => Err e
  end.

Notation "x <- r ;; k" := (bind r (fun x => k))
  (at level 61, r at next level, right associativity).
Notation "' p <- r ;; k" := (bind r (fun x => match x with p => k end))
  (at level 61, p pattern, r at next level, right associativity).

(** ** Options *)

(** The [null.Bool], [null.Int], [null.String] and [null.Float] fields of
    [lib.Options]: a value and its [Valid] flag. *)
Record Null (A : Type) : Type := mkNull { value : A; Valid : bool }.
Arguments mkNull {A} value Valid.
Arguments value {A} n.
Arguments Valid {A} n.

(** A [float64], kept as its IEEE-754 bit pattern: [run.go] only copies
    [Acceptance], it never computes with it. *)
Definition float64 : Type := Z.

(** [map[string][]*Threshold]: metric name to threshold expressions, in
    order. *)
Definition ThresholdMap : Type := list (string * list string).

(** Modelled from the spec: the record [lib.Options] (package [lib] is not
    part of the sources); the fields are those of section 3, with
    [Duration] a [null.String] as [run.go] reads it ([opts.Duration.String]). *)
Record Options : Type := mkOptions {
  Paused : Null bool;
  VUs : Null Z;
  VUsMax : Null Z;
  Duration : Null string;
  Linger : Null bool;
  AbortOnTaint : Null bool;
  Acceptance : Null float64;
  MaxRedirects : Null Z;
  Thresholds : Null ThresholdMap
}.

(** One field of [Apply]: the other option's field is copied when it is
    valid. *)
Definition overwrite {A : Type} (mine other : Null A) : Null A :=
  if Valid other then other else mine.

(** Modelled from the spec: [lib.Options.Apply] (package [lib] is not part
    of the sources): "Apply(other) is field-wise: for each field, if
    other.field.valid is true, overwrite." *)
Definition Apply (o opts : Options) : Options :=
  {| Paused := overwrite (Paused o) (Paused opts);
     VUs := overwrite (VUs o) (VUs opts);
     VUsMax := overwrite (VUsMax o) (VUsMax opts);
     Duration := overwrite (Duration o) (Duration opts);
     Linger := overwrite (Linger o) (Linger opts);
     AbortOnTaint := overwrite (AbortOnTaint o) (AbortOnTaint opts);
     Acceptance := overwrite (Acceptance o) (Acceptance opts);
     MaxRedirects := overwrite (MaxRedirects o) (MaxRedirects opts);
     Thresholds := overwrite (Thresholds o) (Thresholds opts) |}.

Definition setValid {A : Type} (valid : bool) (n : Null A) : Null A :=
  {| value := value n; Valid := valid |}.

(** Modelled from the spec: [lib.Options.SetAllValid] (package [lib] is not
    part of the sources): "SetAllValid(true) marks every field valid". *)
Definition SetAllValid (valid : bool) (o : Options) : Options :=
  {| Paused := setValid valid (Paused o);
     VUs := setValid valid (VUs o);
     VUsMax := setValid valid (VUsMax o);
     Duration := setValid valid (Duration o);
     Linger := setValid valid (Linger o);
     AbortOnTaint := setValid valid (AbortOnTaint o);
     Acceptance := setValid valid (Acceptance o);
     MaxRedirects := setValid valid (MaxRedirects o);
     Thresholds := setValid valid (Thresholds o) |}.

(** ** Source data *)

(** Modelled from the spec: the input type constants [lib.TypeAuto],
    [lib.TypeURL] and [lib.TypeJS] (package [lib] is not part of the
    sources); the [--type] flag documents them as "auto, url, js". *)
Definition TypeAuto : string := "auto".
Definition TypeURL : string := "url".
Definition TypeJS : string := "js".

(** [lib.SourceData] *)
Record SourceData : Type := mkSourceData {
  SrcData : string;
  Filename : string;
  SrcType : string
}.

(** [engine.Status], as far as [run.go] reads it after the run. *)
Record EngineStatus : Type := mkStatus {
  Tainted : Null bool
}.

(** ** The command line *)

(** A flag of the parsed command line: its current value (the default
    when the flag was not given) and whether it was given
    ([cc.IsSet]). *)
Record Flag (A : Type) : Type := mkFlag { flagValue : A; IsSet : bool }.
Arguments mkFlag {A} flagValue IsSet.
Arguments flagValue {A} f.
Arguments IsSet {A} f.

(** [*cli.Context] of the [run] command: the positional arguments and the
    flags [actionRun] reads. *)
Record Context : Type := mkContext {
  Args : list string;
  address : string;
  flag_vus : Flag Z;
  flag_max : Flag Z;
  flag_duration : Flag string;
  flag_acceptance : Flag float64;
  flag_paused : Flag bool;
  flag_type : string;
  flag_linger : Flag bool;
  flag_abort_on_taint : Flag bool;
  flag_max_redirects : Flag Z;
  flag_out : string;
  flag_config : list string
}.

(** The helpers [cliBool], [cliInt64], [cliDuration] and [cliFloat64] of
    package [main] are not part of the sources; [actionRun] documents what
    they return: "CLI options have defaults, which are set as invalid, but
    have potentially nonzero values."  So the field holds the flag's value
    and is valid exactly when the flag was given. *)
Definition cliValue {A : Type} (f : Flag A) : Null A :=
  {| value := flagValue f; Valid := IsSet f |}.

(** ** Strings *)

(** [strings.SplitN(s, sep, 2)] for a one-byte separator [sep]: the text
    before the first [sep] and the text after it, or [s] alone when it has
    no [sep]. *)
Fixpoint cut (s : string) (sep : ascii) : option (string * string) :=
  match s with
  | EmptyString => None
  | String c rest =>
      if Ascii.eqb c sep then Some (EmptyString, rest)
      else match cut rest sep with
           | Some (before, after) => Some (String c before, after)
           | None => None
           end
  end.

Definition SplitN2 (s : string) (sep : ascii) : list string :=
  match cut s sep with
  | Some (before, after) => [before; after]
  | None => [s]
  end.

(** ** The world around [run.go] *)

(** What [run.go] calls and does not define: [net/url], [strings],
    [io/ioutil] and [os] of the Go standard library, the YAML decoder, and
    the packages [simple], [js], [stats/influxdb], [stats/json] and [lib].
    [Run] stands for a whole engine run up to the shutdown of [actionRun]
    (signals and API calls included) and yields the status read
    afterwards. *)
Class World : Type := {
  URL : Type;
  url_Parse : string -> fallible URL;
  Scheme : URL -> string;
  TrimSpace : string -> string;
  ReadFile : string -> fallible string;
  ReadAll_Stdin : fallible string;
  yaml_Unmarshal : string -> fallible Options;
  Runner : Type;
  GetOptions : Runner -> Options;
  ApplyOptions : Runner -> Options -> Runner;
  simple_New : URL -> fallible Runner;
  Runtime : Type;
  Exports : Type;
  js_New : fallible Runtime;
  Load : Runtime -> SourceData -> fallible Exports;
  js_NewRunner : Runtime -> Exports -> fallible Runner;
  Collector : Type;
  influxdb_New : string -> fallible Collector;
  json_New : string -> fallible Collector;
  Engine : Type;
  NewEngine : Runner -> fallible Engine;
  Run : Engine -> option Collector -> EngineStatus
}.

Section Run.

Context {W : World}.

(** [looksLikeURL]: the trimmed string parses as a URL and has a scheme. *)
Definition looksLikeURL (str : string) : bool :=
  match url_Parse (TrimSpace str) with
  | Failure _ => false
  | Success u => negb (Scheme u =? EmptyString)
  end.

Definition cmdline : string := "[cmdline]".

(** [getSrcData].  The three variables [srcdata], [srctype] and [filename]
    start as the empty byte slice, [t] and [arg]; the [switch] has no
    default case, so an unlisted type leaves them untouched. *)
Definition getSrcData (arg t : string) : result SourceData :=
  '(srcdata, srctype, filename) <-
    (if arg =? "-" then
       srcdata <- plain ReadAll_Stdin ;;
       Ok (srcdata, t, arg)
     else if t =? TypeAuto then
       if looksLikeURL arg then Ok (arg, TypeURL, cmdline)
       else match ReadFile arg with
            | Success srcdata => Ok (srcdata, t, arg)
            | Failure _ => Ok (arg, TypeJS, cmdline)
            end
     else if t =? TypeURL then
       if looksLikeURL arg then Ok (arg, t, cmdline)
       else srcdata <- plain (ReadFile arg) ;;
            Ok (srcdata, t, arg)
     else if t =? TypeJS then
       match ReadFile arg with
       | Success srcdata => Ok (srcdata, t, arg)
       | Failure _ => Ok (arg, t, cmdline)
       end
     else Ok (EmptyString, t, arg)) ;;
  let srctype :=
    if srctype =? TypeAuto then
      if looksLikeURL srcdata then TypeURL else TypeJS
    else srctype in
  Ok {| SrcData := srcdata; Filename := filename; SrcType := srctype |}.

(** [makeRunner] *)
Definition makeRunner (srcdata : SourceData) : result Runner :=
  if SrcType srcdata =? EmptyString then
    Err (errors_New "Invalid type specified, see --help")
  else if SrcType srcdata =? TypeURL then
    match url_Parse (TrimSpace (SrcData srcdata)) with
    | Failure _ => Err (errors_New "Failed to parse URL")
    | Success u =>
        if Scheme u =? EmptyString then Err (errors_New "Failed to parse URL")
        else plain (simple_New u)
    end
  else if SrcType srcdata =? TypeJS then
    rt <- plain js_New ;;
    exports <- plain (Load rt srcdata) ;;
    plain (js_NewRunner rt exports)
  else Err (errors_New "Invalid type specified, see --help").

(** [parseCollectorString] *)
Definition parseCollectorString (s : string) : result (string * string) :=
  let parts := SplitN2 s "=" in
  if negb (Nat.eqb (length parts) 2) then
    Err (errors_New "Malformed output; must be in the form 'type=url'")
  else Ok (nth 0 parts EmptyString, nth 1 parts EmptyString).

(** [makeCollector] *)
Definition makeCollector (s : string) : result Collector :=
  '(t, p) <- parseCollectorString s ;;
  if t =? "influxdb" then plain (influxdb_New p)
  else if t =? "json" then plain (json_New p)
  else Err (errors_New ("Unknown output type: " ++ t)).

(** The [lib.Options] literal of [actionRun]: the CLI flags; [Thresholds]
    is not listed there and stays nil. *)
Definition cliOptions (cc : Context) : Options :=
  {| Paused := cliValue (flag_paused cc);
     VUs := cliValue (flag_vus cc);
     VUsMax := cliValue (flag_max cc);
     Duration := cliValue (flag_duration cc);
     Linger := cliValue (flag_linger cc);
     AbortOnTaint := cliValue (flag_abort_on_taint cc);
     Acceptance := cliValue (flag_acceptance cc);
     MaxRedirects := cliValue (flag_max_redirects cc);
     Thresholds := {| value := []; Valid := false |} |}.

(** The loop of [actionRun] over [cc.StringSlice("config")]. *)
Fixpoint readConfigs (filenames : list string) (opts : Options)
  : result Options :=
  match filenames with
  | [] => Ok opts
  | filename :: rest =>
      match ReadFile filename with
      | Failure msg => Err (NewExitError msg 1)
      | Success data =>
          match yaml_Unmarshal data with
          | Failure msg => Err (NewExitError msg 1)
          | Success configOpts => readConfigs rest (Apply opts configOpts)
          end
      end
  end.

(** [opts.VUsMax.Int64 = n]: the value changes, the flag does not. *)
Definition setVUsMaxInt64 (opts : Options) (n : Z) : Options :=
  {| Paused := Paused opts;
     VUs := VUs opts;
     VUsMax := {| value := n; Valid := Valid (VUsMax opts) |};
     Duration := Duration opts;
     Linger := Linger opts;
     AbortOnTaint := AbortOnTaint opts;
     Acceptance := Acceptance opts;
     MaxRedirects := MaxRedirects opts;
     Thresholds := Thresholds opts |}.

(** The end of the merge in [actionRun]: an invalid [VUsMax] takes the
    value of [VUs], then every field is marked valid. *)
Definition lockDefaults (opts : Options) : Options :=
  let opts :=
    if negb (Valid (VUsMax opts)) then setVUsMaxInt64 opts (value (VUs opts))
    else opts in
  SetAllValid true opts.

(** The options of [actionRun] as they are handed to
    [runner.ApplyOptions]: the CLI flags, the runner's options applied to
    them, each config file applied in turn, and the defaults locked. *)
Definition mergeOptions (cc : Context) (runner : Runner) : result Options :=
  let opts := cliOptions cc in
  let opts := Apply opts (GetOptions runner) in
  opts <- readConfigs (flag_config cc) opts ;;
  Ok (lockDefaults opts).

(** [actionRun], without its printing: the banner, the progress bar and
    the summary do not change what is returned.  [Ok tt] is the nil
    error. *)
Definition actionRun (cc : Context) : result unit :=
  match Args cc with
  | [arg] =>
      srcdata <- getSrcData arg (flag_type cc) ;;
      runner <- makeRunner srcdata ;;
      opts <- mergeOptions cc runner ;;
      let runner := ApplyOptions runner opts in
      collector <-
        (if flag_out cc =? EmptyString then Ok None
         else c <- makeCollector (flag_out cc) ;; Ok (Some c)) ;;
      engine <- plain (NewEngine runner) ;;
      let status := Run engine collector in
      if value (Tainted status) then Err (NewExitError EmptyString 99)
      else Ok tt
  | _ => Err (NewExitError "Wrong number of arguments!" 1)
  end.

End Run.


(** ** Notions of the specification *)

(** The highest layer that sets a field; the layers are listed from the
    lowest precedence to the highest. *)
Fixpoint lastValid {A : Type} (layers : list (Null A)) : option (Null A) :=
  match layers with
  | [] => None
  | n :: above =>
      match lastValid above with
      | Some m => Some m
      | None => if Valid n then Some n else None
      end
  end.

(** A property of every field of [Options]. *)
Definition eachField (P : forall A : Type, (Options -> Null A) -> Prop)
  : Prop :=
  P _ Paused /\ P _ VUs /\ P _ VUsMax /\ P _ Duration /\ P _ Linger /\
  P _ AbortOnTaint /\ P _ Acceptance /\ P _ MaxRedirects /\ P _ Thresholds.

(** [final] follows the precedence of [layers] (lowest first): a field that
    some layer sets carries the value of the highest layer setting it. *)
Definition followsPrecedence (layers : list Options) (final : Options)
  : Prop :=
  eachField (fun A field =>
    forall n, lastValid (map field layers) = Some n ->
              value (field final) = value n).



Section Specified.

Context {W : World}.

(** The config files [filenames] are read and decoded, in order, as
    [configs]. *)
Definition configsRead (filenames : list string) (configs : list Options)
  : Prop :=
  Forall2 (fun filename configOpts =>
             exists data, ReadFile filename = Success data /\
                          yaml_Unmarshal data = Success configOpts)
          filenames configs.

(** The precedence as the specification words it: runner defaults, then
    config files in order, then CLI flags. *)
Definition mergeAsSpecified (cc : Context) (runner : Runner)
  (configs : list Options) : Prop :=
  forall final, mergeOptions cc runner = Ok final ->
    followsPrecedence
      (GetOptions runner :: configs ++ [cliOptions cc])%list final.

(** The invariant of the merge as the specification words it. *)
Definition vusMaxAsSpecified (cc : Context) (runner : Runner) : Prop :=
  forall final, mergeOptions cc runner = Ok final ->
    value (VUsMax final) >= value (VUs final).

(** [--type=url] as the specification words it, for the argument [arg]. *)
Definition urlSourceAsSpecified (arg : string) : Prop :=
  if looksLikeURL arg then
    exists sd, getSrcData arg TypeURL = Ok sd /\
               SrcData sd = arg /\ SrcType sd = TypeURL
  else
    match ReadFile arg with
    | Success data =>
        exists sd, getSrcData arg TypeURL = Ok sd /\
                   SrcData sd = data /\ SrcType sd = TypeURL
    | Failure _ => exists e, getSrcData arg TypeURL = Err e
    end.

(** [--type=js] as the specification words it, for the argument [arg]. *)
Definition jsSourceAsSpecified (arg : string) : Prop :=
  match ReadFile arg with
  | Success data =>
      exists sd, getSrcData arg TypeJS = Ok sd /\
                 SrcData sd = data /\ SrcType sd = TypeJS
  | Failure _ =>
      getSrcData arg TypeJS =
      Ok {| SrcData := arg; Filename := cmdline; SrcType := TypeJS |}
  end.



End Specified.

(** ** A concrete world for examples *)

Module Fixture.

(** The part of [url.URL] the examples need. *)
Record GoURL : Type := mkURL { scheme : string; afterScheme : string }.

Definition between (lo hi : nat) (c : ascii) : bool :=
  (Nat.leb lo (nat_of_ascii c) && Nat.leb (nat_of_ascii c) hi)%bool.

Definition isLetter (c : ascii) : bool :=
  (between 97 122 c || between 65 90 c)%bool.

Definition isSchemeMark (c : ascii) : bool :=
  (between 48 57 c || Ascii.eqb c "+" || Ascii.eqb c "-" || Ascii.eqb c ".")%bool.

(** The scheme scanner of [net/url] ([getscheme]): letters anywhere,
    digits and [+ - .] after the first byte, a colon ends the scheme, any
    other byte means there is none.  [first] tells the first byte. *)
Fixpoint scanScheme (first : bool) (s : string)
  : fallible (option (string * string)) :=
  match s with
  | EmptyString => Success None
  | String c rest =>
      let continue :=
        match scanScheme false rest with
        | Success (Some (sch, path)) => Success (Some (String c sch, path))
        | other => other
        end in
      if isLetter c then continue
      else if isSchemeMark c then
        if first then Success None else continue
      else if Ascii.eqb c ":" then
        if first then Failure "missing protocol scheme"
        else Success (Some (EmptyString, rest))
      else Success None
  end.

(** [url.Parse] as far as its scheme goes; what it checks after the scheme
    (authority, escapes) is left out, and the examples use no input where
    that matters. *)
Definition Parse (rawurl : string) : fallible GoURL :=
  match scanScheme true rawurl with
  | Success (Some (sch, path)) => Success (mkURL sch path)
  | Success None => Success (mkURL EmptyString rawurl)
  | Failure msg => Failure msg
  end.

(** ASCII white space, as [strings.TrimSpace] removes it at both ends. *)
Definition isSpace (c : ascii) : bool :=
  (between 9 13 c || Ascii.eqb c " ")%bool.

Fixpoint trimLeft (s : string) : string :=
  match s with
  | String c rest => if isSpace c then trimLeft rest else s
  | EmptyString => EmptyString
  end.

Fixpoint trimRight (s : string) : string :=
  match s with
  | String c rest =>
      match trimRight rest with
      | EmptyString => if isSpace c then EmptyString else String c EmptyString
      | kept => String c kept
      end
  | EmptyString => EmptyString
  end.

Definition trim (s : string) : string := trimRight (trimLeft s).

Fixpoint lookup {A : Type} (table : list (string * A)) (key : string)
  : option A :=
  match table with
  | [] => None
  | (k, a) :: rest => if k =? key then Some a else lookup rest key
  end.

(** No field set. *)
Definition noOptions : Options :=
  {| Paused := mkNull false false;
     VUs := mkNull 0 false;
     VUsMax := mkNull 0 false;
     Duration := mkNull EmptyString false;
     Linger := mkNull false false;
     AbortOnTaint := mkNull false false;
     Acceptance := mkNull 0 false;
     MaxRedirects := mkNull 0 false;
     Thresholds := mkNull [] false |}.

(** A runner of the examples: the options it declares and the options it
    was given. *)
Record TestRunner : Type := mkRunner {
  declared : Options;
  applied : option Options
}.

(** A world with the files [files] (name and content), the standard input
    [stdin], scripts and YAML documents that declare the options listed in
    [declares] (text and options; any other text does not parse), and
    engines that end [tainted]. *)
Definition world (files : list (string * string)) (stdin : fallible string)
  (declares : list (string * Options)) (tainted : bool) : World :=
  {| URL := GoURL;
     url_Parse := Parse;
     Scheme := scheme;
     TrimSpace := trim;
     ReadFile := fun name =>
       match lookup files name with
       | Some content => Success content
       | None => Failure ("open " ++ name ++ ": no such file or directory")
       end;
     ReadAll_Stdin := stdin;
     yaml_Unmarshal := fun data =>
       match lookup declares data with
       | Some o => Success o
       | None => Failure "yaml: unmarshal error"
       end;
     Runner := TestRunner;
     GetOptions := declared;
     ApplyOptions := fun r o => mkRunner (declared r) (Some o);
     simple_New := fun _ => Success (mkRunner noOptions None);
     Runtime := unit;
     Exports := Options;
     js_New := Success tt;
     Load := fun _ src =>
       match lookup declares (SrcData src) with
       | Some o => Success o
       | None => Failure "SyntaxError"
       end;
     js_NewRunner := fun _ exports => Success (mkRunner exports None);
     Collector := string * string;
     influxdb_New := fun p => Success ("influxdb", p);
     json_New := fun p => Success ("json", p);
     Engine := TestRunner;
     NewEngine := fun r => Success r;
     Run := fun _ _ => mkStatus (mkNull tainted true) |}.

(** [k6 run] with the flags [--vus], [--max], [--type], [--out] and
    [--config] as given and the others at the defaults of [commandRun]. *)
Definition run (args : list string) (vus max : Flag Z) (type out : string)
  (config : list string) : Context :=
  {| Args := args;
     address := "127.0.0.1:6565";
     flag_vus := vus;
     flag_max := max;
     flag_duration := mkFlag "10s" false;
     flag_acceptance := mkFlag 0 false;
     flag_paused := mkFlag false false;
     flag_type := type;
     flag_linger := mkFlag false false;
     flag_abort_on_taint := mkFlag false false;
     flag_max_redirects := mkFlag 0 false;
     flag_out := out;
     flag_config := config |}.

(** Options that set [VUs] and nothing else. *)
Definition vusOnly (n : Z) : Options :=
  {| Paused := mkNull false false;
     VUs := mkNull n true;
     VUsMax := mkNull 0 false;
     Duration := mkNull EmptyString false;
     Linger := mkNull false false;
     AbortOnTaint := mkNull false false;
     Acceptance := mkNull 0 false;
     MaxRedirects := mkNull 0 false;
     Thresholds := mkNull [] false |}.

(** [k6 run --vus 5 script.js] *)
Definition runVus5 : Context :=
  run ["script.js"] (mkFlag 5 true) (mkFlag 0 false) "auto" EmptyString [].

(** [k6 run --vus 10 --max 5 script.js] *)
Definition runVus10Max5 : Context :=
  run ["script.js"] (mkFlag 10 true) (mkFlag 5 true) "auto" EmptyString [].

(** [k6 run --vus 5 --config low.yaml --config high.yaml script.js] *)
Definition runTwoConfigs : Context :=
  run ["script.js"] (mkFlag 5 true) (mkFlag 0 false) "auto" EmptyString
      ["low.yaml"; "high.yaml"].

(** A script that declares 7 VUs, and two config files that set 20 and
    30 VUs. *)
Definition scripted (tainted : bool) : World :=
  world [("script.js", "export let options = { vus: 7 };");
         ("low.yaml", "vus: 20"); ("high.yaml", "vus: 30")]
        (Success EmptyString)
        [("export let options = { vus: 7 };", vusOnly 7);
         ("vus: 20", vusOnly 20); ("vus: 30", vusOnly 30)]
        tainted.

(** One file that holds a URL, a script on standard input. *)
Definition urlFile : World :=
  world [("target.txt", "http://example.com/ ")] (Success "1+1") [] false.

(** No files, and a standard input that cannot be read. *)
Definition closedStdin : World :=
  world [] (Failure "read /dev/stdin: bad file descriptor") [] false.

(** A file named "-" whose content differs from standard input. *)
Definition dashFile : World :=
  world [("-", "http://file.example/")] (Success "http://stdin.example/")
        [] false.

End Fixture.

(** ** [actionInspect] *)

(** The zero value of [lib.Options] ([var opts lib.Options]): no field
    set. *)
Definition zeroOptions : Options :=
  {| Paused := mkNull false false;
     VUs := mkNull 0 false;
     VUsMax := mkNull 0 false;
     Duration := mkNull EmptyString false;
     Linger := mkNull false false;
     AbortOnTaint := mkNull false false;
     Acceptance := mkNull 0 false;
     MaxRedirects := mkNull 0 false;
     Thresholds := mkNull [] false |}.

(** What [actionInspect] uses beyond [World]: the field [Options] of the
    JS runtime once [Load] has run the script, and the helper [dumpYAML]
    of package [main], which is not part of the sources. *)
Class Inspector {W : World} : Type := {
  loadedOptions : Runtime -> SourceData -> Options;
  dumpYAML : Options -> result unit
}.

Section Inspect.

Context {W : World} {I : Inspector}.

(** The options [actionInspect] hands to [dumpYAML]: those of the script
    when the source is of type js, then each config file applied in
    turn.  A source of any other type contributes nothing. *)
Definition inspectOptions (cc : Context) (srcdata : SourceData)
  : result Options :=
  let opts := zeroOptions in
  opts <-
    (if SrcType srcdata =? TypeJS then
       match js_New with
       | Failure msg => Err (NewExitError msg 1)
       | Success r =>
           match Load r srcdata with
           | Failure msg => Err (NewExitError msg 1)
           | Success _ => Ok (Apply opts (loadedOptions r srcdata))
           end
       end
     else Ok opts) ;;
  readConfigs (flag_config cc) opts.

(** [actionInspect] *)
Definition actionInspect (cc : Context) : result unit :=
  match Args cc with
  | [arg] =>
      srcdata <- getSrcData arg (flag_type cc) ;;
      opts <- inspectOptions cc srcdata ;;
      dumpYAML opts
  | _ => Err (NewExitError "Wrong number of arguments!" 1)
  end.

End Inspect.

(** ** The summary printed by [actionRun] *)

(** [lib.Check], as [printGroup] reads it. *)
Record Check : Type := mkCheck {
  CheckName : string;
  Passes : Z;
  Fails : Z
}.

(** [lib.Group], as [printGroup] reads it; of the [Parent] pointer only
    whether it is nil matters. *)
#[warnings="-register-all"]
Inductive Group : Type :=
| mkGroup (name : string) (hasParent : bool) (checks : list Check)
          (groups : list Group).

Definition Name (g : Group) : string :=
  match g with mkGroup name _ _ _ => name end.
Definition HasParent (g : Group) : bool :=
  match g with mkGroup _ hasParent _ _ => hasParent end.
Definition Checks (g : Group) : list Check :=
  match g with mkGroup _ _ checks _ => checks end.
Definition Groups (g : Group) : list Group :=
  match g with mkGroup _ _ _ groups => groups end.

(** The calls of [fmt.Printf] in [printGroup], with their arguments.  The
    percentage of a check line is float64 arithmetic on the two counters;
    the call is kept with the counters themselves. *)
Inductive Printed : Type :=
| GroupLine (indent name : string)
| BlankLine
| CheckLine (indent icon : string) (passes fails : Z) (name : string).

(** [strings.Repeat] *)
Fixpoint Repeat (s : string) (count : nat) : string :=
  match count with
  | O => EmptyString
  | S n => s ++ Repeat s n
  end.

(** One turn of the loop over [g.Checks]. *)
Definition printCheck (indent : string) (check : Check) : Printed :=
  let icon := if (0 <? Fails check)%Z then "✗" else "✓" in
  CheckLine indent icon (Passes check) (Fails check) (CheckName check).

(** [printGroup] *)
Fixpoint printGroup (g : Group) (level : nat) : list Printed :=
  match g with
  | mkGroup name hasParent checks groups =>
      let indent := Repeat "  " level in
      let named := (negb (name =? EmptyString) && hasParent)%bool in
      let hasChecks := Nat.ltb 0 (length checks) in
      ((if named then [GroupLine indent name] else []) ++
       (if hasChecks then
          (if named then [BlankLine] else []) ++
          map (printCheck indent) checks ++ [BlankLine]
        else []) ++
       (if Nat.ltb 0 (length groups) then
          (if (named && hasChecks)%bool then [BlankLine] else []) ++
          flat_map (fun g' => printGroup g' (level + 1)) groups
        else []))%list
  end.

(** The loop of [actionRun] over [engine.Runner.GetGroups()]: only the
    groups without a parent are printed from there. *)
Definition printGroups (groups : list Group) : list Printed :=
  flat_map (fun g => if HasParent g then [] else printGroup g 1) groups.

(** [lib.Threshold], as the summary reads it. *)
Record Threshold : Type := mkThreshold { Failed : bool }.

(** The loop of [actionRun] over the thresholds of a metric, from the
    icon it has on entry: every threshold sets the tick, a failed one the
    cross and leaves the loop. *)
Fixpoint thresholdLoop (icon : string) (thresholds : list Threshold)
  : string :=
  match thresholds with
  | [] => icon
  | threshold :: rest =>
      if Failed threshold then "✗" else thresholdLoop "✓" rest
  end.

(** The icon of a metric line. *)
Definition thresholdIcon (thresholds : list Threshold) : string :=
  thresholdLoop " " thresholds.

(** ** Notions used to describe the summary and the inspection *)

(** The checks of a group tree: those of the group, then those of its
    subgroups in order. *)
Fixpoint checksOf (g : Group) : list Check :=
  match g with
  | mkGroup _ _ checks groups => (checks ++ flat_map checksOf groups)%list
  end.

(** The names that get a header line: groups with a name and a parent,
    a group before its subgroups. *)
Fixpoint headersOf (g : Group) : list string :=
  match g with
  | mkGroup name hasParent _ groups =>
      ((if (negb (name =? EmptyString) && hasParent)%bool then [name]
        else []) ++ flat_map headersOf groups)%list
  end.

(** The check lines among what was printed: icon, counters and name. *)
Fixpoint checkLines (out : list Printed)
  : list (string * Z * Z * string) :=
  match out with
  | [] => []
  | CheckLine _ icon passes fails name :: rest =>
      (icon, passes, fails, name) :: checkLines rest
  | _ :: rest => checkLines rest
  end.

(** The names of the header lines among what was printed. *)
Fixpoint headerLines (out : list Printed) : list string :=
  match out with
  | [] => []
  | GroupLine _ name :: rest => name :: headerLines rest
  | _ :: rest => headerLines rest
  end.

(** The script table of [Fixture.scripted]. *)
Definition scriptedTable : list (string * Options) :=
  [("export let options = { vus: 7 };", Fixture.vusOnly 7);
   ("vus: 20", Fixture.vusOnly 20); ("vus: 30", Fixture.vusOnly 30)].

(** An inspector for [Fixture.scripted]: the runtime's options are those
    the script declares. *)
Definition scriptedInspector (tainted : bool)
  : @Inspector (Fixture.scripted tainted) :=
  {| loadedOptions := fun _ src =>
       match Fixture.lookup scriptedTable (SrcData src) with
       | Some o => o
       | None => zeroOptions
       end;
     dumpYAML := fun _ => Ok tt |}.


(** ** The percentage of a check line *)






(** ** The margin of a printed line *)

(** The spaces a line starts with: a header is printed by ["%s█ %s\n"],
    a check line by ["%s  %s %2.2f%% - %s\n"], two spaces further in. *)
Definition marginOf (p : Printed) : option string :=
  match p with
  | GroupLine indent _ => Some indent
  | CheckLine indent _ _ _ _ => Some (indent ++ "  ")
  | BlankLine => None
  end.

Fixpoint margins (out : list Printed) : list string :=
  match out with
  | [] => []
  | p :: rest =>
      match marginOf p with
      | Some margin => margin :: margins rest
      | None => margins rest
      end
  end.

(** For the header and check lines of a group tree, in the order they
    are printed, how many two-space units deep each one stands: a header
    as deep as its group is nested below [depth], a check one unit
    deeper than the header of its group. *)
Fixpoint marginUnits (g : Group) (depth : nat) : list nat :=
  match g with
  | mkGroup name hasParent checks groups =>
      ((if (negb (name =? EmptyString) && hasParent)%bool then [depth]
        else []) ++
       map (fun _ => S depth) checks ++
       flat_map (fun g' => marginUnits g' (S depth)) groups)%list
  end.

(** ** [--acceptance] and the engine *)

Section Prepared.

Context {W : World}.



End Prepared.



(** * Theorems *)

(** ** Source resolution *)

Section SourceResolution.

Context {W : World}.

Lemma not_dash (arg : string) : arg <> "-" -> (arg =? "-") = false.
Proof. intro H. now apply String.eqb_neq. Qed.

Lemma other_type (t u : string) : t <> u -> (t =? u) = false.
Proof. intro H. now apply String.eqb_neq. Qed.

(** Standard input is read whenever the argument is "-", whatever the
    type. *)
Lemma getSrcData_stdin (t : string) :
  getSrcData "-" t =
  match ReadAll_Stdin with
  | Failure msg => Err (errors_New msg)
  | Success data =>
      Ok {| SrcData := data; Filename := "-";
            SrcType := if t =? TypeAuto
                       then if looksLikeURL data then TypeURL else TypeJS
                       else t |}
  end.
Proof.
  unfold getSrcData. simpl. destruct ReadAll_Stdin; reflexivity.
Qed.

Lemma auto_resolution (arg : string) :
  arg <> "-" ->
  getSrcData arg TypeAuto =
  if looksLikeURL arg then
    Ok {| SrcData := arg; Filename := cmdline; SrcType := TypeURL |}
  else
    match ReadFile arg with
    | Failure _ =>
        Ok {| SrcData := arg; Filename := cmdline; SrcType := TypeJS |}
    | Success data =>
        Ok {| SrcData := data; Filename := arg;
              SrcType := if looksLikeURL data then TypeURL else TypeJS |}
    end.
Proof.
  intro Harg. unfold getSrcData. rewrite (not_dash _ Harg). simpl.
  destruct (looksLikeURL arg); [reflexivity|].
  destruct (ReadFile arg); reflexivity.
Qed.

Lemma js_resolution (arg : string) :
  arg <> "-" ->
  getSrcData arg TypeJS =
  match ReadFile arg with
  | Success data =>
      Ok {| SrcData := data; Filename := arg; SrcType := TypeJS |}
  | Failure _ =>
      Ok {| SrcData := arg; Filename := cmdline; SrcType := TypeJS |}
  end.
Proof.
  intro Harg. unfold getSrcData. rewrite (not_dash _ Harg). simpl.
  destruct (ReadFile arg); reflexivity.
Qed.

(** C2: with the type [auto] and an argument other than "-", an argument
    that looks like a URL is the URL source itself; otherwise the argument
    is read as a file; when that fails the argument is inline script text
    of kind js; content read from a file, or from standard input for "-",
    is given kind url or js by the same test on the content. *)
Theorem getSrcData_auto (arg : string) :
  (arg <> "-" ->
   getSrcData arg TypeAuto =
   if looksLikeURL arg then
     Ok {| SrcData := arg; Filename := cmdline; SrcType := TypeURL |}
   else
     match ReadFile arg with
     | Failure _ =>
         Ok {| SrcData := arg; Filename := cmdline; SrcType := TypeJS |}
     | Success data =>
         Ok {| SrcData := data; Filename := arg;
               SrcType := if looksLikeURL data then TypeURL else TypeJS |}
     end) /\
  getSrcData "-" TypeAuto =
  match ReadAll_Stdin with
  | Failure msg => Err (errors_New msg)
  | Success data =>
      Ok {| SrcData := data; Filename := "-";
            SrcType := if looksLikeURL data then TypeURL else TypeJS |}
  end.
Proof.
  split.
  - apply auto_resolution.
  - rewrite getSrcData_stdin. reflexivity.
Qed.

(** C4, amended: with the type [url] and an argument other than "-", an
    argument that looks like a URL is the source itself; otherwise the
    file of that name is read, and a failed read is the error returned;
    [makeRunner] accepts a url source only when its content looks like a
    URL.  For "-" standard input is read and no file is. *)
Theorem getSrcData_url (arg : string) :
  (arg <> "-" ->
   getSrcData arg TypeURL =
   if looksLikeURL arg then
     Ok {| SrcData := arg; Filename := cmdline; SrcType := TypeURL |}
   else
     match ReadFile arg with
     | Success data =>
         Ok {| SrcData := data; Filename := arg; SrcType := TypeURL |}
     | Failure msg => Err (errors_New msg)
     end) /\
  (forall sd runner,
     SrcType sd = TypeURL -> makeRunner sd = Ok runner ->
     looksLikeURL (SrcData sd) = true) /\
  getSrcData "-" TypeURL =
  match ReadAll_Stdin with
  | Failure msg => Err (errors_New msg)
  | Success data =>
      Ok {| SrcData := data; Filename := "-"; SrcType := TypeURL |}
  end.
Proof.
  split; [|split].
  - intro Harg. unfold getSrcData. rewrite (not_dash _ Harg). simpl.
    destruct (looksLikeURL arg); [reflexivity|].
    destruct (ReadFile arg); reflexivity.
  - intros sd runner Ht Hr. unfold makeRunner in Hr. rewrite Ht in Hr.
    simpl in Hr. unfold looksLikeURL.
    destruct (url_Parse (TrimSpace (SrcData sd))); [|discriminate].
    destruct (Scheme a =? EmptyString); [discriminate|reflexivity].
  - rewrite getSrcData_stdin. reflexivity.
Qed.

(** C5, amended: with the type [js] and an argument other than "-", the
    file of that name is read; when that fails the argument itself is the
    script, under the file name [[cmdline]]; no error is returned.  For
    "-" standard input is read, and a failed read is an error. *)
Theorem getSrcData_js (arg : string) :
  (arg <> "-" ->
   getSrcData arg TypeJS =
   match ReadFile arg with
   | Success data =>
       Ok {| SrcData := data; Filename := arg; SrcType := TypeJS |}
   | Failure _ =>
       Ok {| SrcData := arg; Filename := cmdline; SrcType := TypeJS |}
   end) /\
  getSrcData "-" TypeJS =
  match ReadAll_Stdin with
  | Failure msg => Err (errors_New msg)
  | Success data =>
      Ok {| SrcData := data; Filename := "-"; SrcType := TypeJS |}
  end.
Proof.
  split.
  - apply js_resolution.
  - rewrite getSrcData_stdin. reflexivity.
Qed.

(** C9: with an argument other than "-" and the type [auto] or [js],
    [getSrcData] returns a source; when the file cannot be read (and, for
    [auto], the argument does not look like a URL) the source is the
    argument itself as js text.  Whatever the type, an error comes from a
    failed read of standard input or from a failed file read under the
    type [url]. *)
Theorem getSrcData_auto_js_total :
  (forall arg t,
     arg <> "-" -> t = TypeAuto \/ t = TypeJS ->
     exists sd,
       getSrcData arg t = Ok sd /\
       (forall msg,
          ReadFile arg = Failure msg ->
          t = TypeJS \/ looksLikeURL arg = false ->
          sd = {| SrcData := arg; Filename := cmdline;
                  SrcType := TypeJS |})) /\
  (forall arg t e,
     getSrcData arg t = Err e ->
     (arg = "-" /\ ReadAll_Stdin = Failure (Error e)) \/
     (arg <> "-" /\ t = TypeURL /\ looksLikeURL arg = false /\
      ReadFile arg = Failure (Error e))).
Proof.
  split.
  - intros arg t Harg [-> | ->].
    + rewrite (auto_resolution arg Harg).
      destruct (looksLikeURL arg) eqn:Hurl.
      * eexists. split; [reflexivity|].
        intros msg _ [Hjs | Hno]; discriminate.
      * destruct (ReadFile arg) eqn:Hfile.
        -- eexists. split; [reflexivity|]. intros msg Hmsg. discriminate.
        -- eexists. split; [reflexivity|]. reflexivity.
    + rewrite (js_resolution arg Harg).
      destruct (ReadFile arg) eqn:Hfile.
      * eexists. split; [reflexivity|]. intros msg Hmsg. discriminate.
      * eexists. split; [reflexivity|]. reflexivity.
  - intros arg t e He.
    destruct (String.eqb_spec arg "-") as [-> | Harg].
    + left. split; [reflexivity|].
      rewrite getSrcData_stdin in He.
      destruct ReadAll_Stdin; [discriminate|].
      injection He as <-. reflexivity.
    + right. split; [assumption|].
      unfold getSrcData in He. rewrite (not_dash _ Harg) in He.
      destruct (t =? TypeAuto) eqn:Hauto.
      { destruct (looksLikeURL arg); [discriminate|].
        destruct (ReadFile arg); simpl in He;
          repeat match type of He with
                 | context [if ?b then _ else _] => destruct b
                 end; discriminate. }
      destruct (String.eqb_spec t TypeURL) as [-> | Hurl].
      { destruct (looksLikeURL arg); [discriminate|].
        destruct (ReadFile arg); [discriminate|].
        simpl in He. injection He as <-. repeat split; reflexivity. }
      destruct (t =? TypeJS).
      { destruct (ReadFile arg); simpl in He; rewrite Hauto in He;
          discriminate. }
      simpl in He. rewrite Hauto in He. discriminate.
Qed.

(** C10: with an argument other than "-" and a type that is none of auto,
    url and js, [getSrcData] returns empty source bytes under the type as
    given; [makeRunner] then refuses it, as it refuses every source kind
    other than url and js, with the invalid-type error. *)
Theorem getSrcData_unknown_type (arg t : string) :
  arg <> "-" -> t <> TypeAuto -> t <> TypeURL -> t <> TypeJS ->
  getSrcData arg t =
  Ok {| SrcData := EmptyString; Filename := arg; SrcType := t |} /\
  (forall sd,
     SrcType sd <> TypeURL -> SrcType sd <> TypeJS ->
     makeRunner sd = Err (errors_New "Invalid type specified, see --help")) /\
  (exists sd,
     getSrcData arg t = Ok sd /\
     makeRunner sd = Err (errors_New "Invalid type specified, see --help")).
Proof.
  intros Harg Hauto Hurl Hjs.
  assert (Hget : getSrcData arg t =
                 Ok {| SrcData := EmptyString; Filename := arg;
                       SrcType := t |}).
  { unfold getSrcData. rewrite (not_dash _ Harg).
    rewrite (other_type _ _ Hauto), (other_type _ _ Hurl),
      (other_type _ _ Hjs).
    simpl. rewrite (other_type _ _ Hauto). reflexivity. }
  assert (Hmake : forall sd,
             SrcType sd <> TypeURL -> SrcType sd <> TypeJS ->
             makeRunner sd =
             Err (errors_New "Invalid type specified, see --help")).
  { intros sd H1 H2. unfold makeRunner.
    rewrite (other_type _ _ H1), (other_type _ _ H2).
    destruct (SrcType sd =? EmptyString); reflexivity. }
  split; [exact Hget|]. split; [exact Hmake|].
  eexists. split; [exact Hget|]. apply Hmake; assumption.
Qed.

End SourceResolution.

(** ** Source resolution on examples *)

Lemma getSrcData_auto_witness :
  "target.txt" <> "-" /\
  getSrcData (W := Fixture.urlFile) "target.txt" TypeAuto =
  Ok {| SrcData := "http://example.com/ "; Filename := "target.txt";
        SrcType := TypeURL |}.
Proof.
  split; [discriminate|].
  exact (proj1 (getSrcData_auto (W := Fixture.urlFile) "target.txt")
               ltac:(discriminate)).
Defined.

Lemma getSrcData_url_witness :
  "missing.txt" <> "-" /\
  getSrcData (W := Fixture.urlFile) "missing.txt" TypeURL =
  Err (errors_New "open missing.txt: no such file or directory").
Proof.
  split; [discriminate|].
  exact (proj1 (getSrcData_url (W := Fixture.urlFile) "missing.txt")
               ltac:(discriminate)).
Defined.

Lemma getSrcData_js_witness :
  "1+1" <> "-" /\
  getSrcData (W := Fixture.urlFile) "1+1" TypeJS =
  Ok {| SrcData := "1+1"; Filename := "[cmdline]"; SrcType := TypeJS |}.
Proof.
  split; [discriminate|].
  exact (proj1 (getSrcData_js (W := Fixture.urlFile) "1+1")
               ltac:(discriminate)).
Defined.

Lemma getSrcData_auto_js_total_witness :
  "1+1" <> "-" /\
  exists sd, getSrcData (W := Fixture.urlFile) "1+1" TypeAuto = Ok sd.
Proof.
  split; [discriminate|].
  destruct (proj1 (getSrcData_auto_js_total (W := Fixture.urlFile))
                  "1+1" TypeAuto ltac:(discriminate) (or_introl eq_refl))
    as [sd [Hsd _]].
  exists sd. exact Hsd.
Defined.

Lemma getSrcData_unknown_type_witness :
  "script.js" <> "-" /\ "yaml" <> TypeAuto /\ "yaml" <> TypeURL /\
  "yaml" <> TypeJS /\
  getSrcData (W := Fixture.urlFile) "script.js" "yaml" =
  Ok {| SrcData := EmptyString; Filename := "script.js";
        SrcType := "yaml" |}.
Proof.
  repeat (split; [discriminate|]).
  exact (proj1 (getSrcData_unknown_type (W := Fixture.urlFile)
                  "script.js" "yaml" ltac:(discriminate) ltac:(discriminate)
                  ltac:(discriminate) ltac:(discriminate))).
Defined.

(** C4 as stated fails for the argument "-": the content returned is that
    of standard input, although a file of that name exists and holds
    something else. *)
Lemma url_dash_counterexample :
  getSrcData (W := Fixture.dashFile) "-" TypeURL =
  Ok {| SrcData := "http://stdin.example/"; Filename := "-";
        SrcType := TypeURL |} /\
  ~ urlSourceAsSpecified (W := Fixture.dashFile) "-".
Proof.
  split; [reflexivity|].
  unfold urlSourceAsSpecified. simpl.
  intros [sd [Hget [Hdata _]]].
  vm_compute in Hget. injection Hget as <-. discriminate.
Qed.

(** C5 as stated fails for the argument "-": when standard input cannot
    be read an error is returned, and the argument is not taken as
    script text. *)
Lemma js_dash_counterexample :
  getSrcData (W := Fixture.closedStdin) "-" TypeJS =
  Err (errors_New "read /dev/stdin: bad file descriptor") /\
  ~ jsSourceAsSpecified (W := Fixture.closedStdin) "-".
Proof.
  split; [reflexivity|].
  unfold jsSourceAsSpecified. simpl. intro Hget.
  vm_compute in Hget. discriminate.
Qed.

(** ** Collector selection *)

Lemma cut_absent (sep : ascii) (s : string) :
  ~ In sep (list_ascii_of_string s) -> cut s sep = None.
Proof.
  induction s as [|c rest IH]; simpl; intro Hnot; [reflexivity|].
  destruct (Ascii.eqb_spec c sep) as [-> | Hc].
  - exfalso. apply Hnot. now left.
  - rewrite IH; [reflexivity|]. intro Hin. apply Hnot. now right.
Qed.

Lemma cut_first (sep : ascii) (before after : string) :
  ~ In sep (list_ascii_of_string before) ->
  cut (before ++ String sep after) sep = Some (before, after).
Proof.
  induction before as [|c rest IH]; simpl; intro Hnot.
  - now rewrite Ascii.eqb_refl.
  - destruct (Ascii.eqb_spec c sep) as [-> | Hc].
    + exfalso. apply Hnot. now left.
    + rewrite IH; [reflexivity|]. intro Hin. apply Hnot. now right.
Qed.

Section Collectors.

Context {W : World}.

Lemma parseCollectorString_first (kind destination : string) :
  ~ In "="%char (list_ascii_of_string kind) ->
  parseCollectorString (kind ++ "=" ++ destination) =
  Ok (kind, destination).
Proof.
  intro Hkind. unfold parseCollectorString, SplitN2.
  change ("=" ++ destination) with (String "=" destination).
  rewrite (cut_first _ _ _ Hkind). reflexivity.
Qed.

(** C6: an [--out] string without "=" is refused as malformed; for
    [kind=destination], [kind] being what stands before the first "=",
    the kinds influxdb and json hand the destination to their collector's
    constructor, and any other kind is refused as an unknown output
    type. *)
Theorem makeCollector_by_kind :
  (forall s,
     ~ In "="%char (list_ascii_of_string s) ->
     makeCollector s =
     Err (errors_New "Malformed output; must be in the form 'type=url'")) /\
  (forall destination,
     makeCollector ("influxdb=" ++ destination) =
     plain (influxdb_New destination)) /\
  (forall destination,
     makeCollector ("json=" ++ destination) = plain (json_New destination)) /\
  (forall kind destination,
     ~ In "="%char (list_ascii_of_string kind) ->
     kind <> "influxdb" -> kind <> "json" ->
     makeCollector (kind ++ "=" ++ destination) =
     Err (errors_New ("Unknown output type: " ++ kind))).
Proof.
  split; [|split; [|split]].
  - intros s Hs. unfold makeCollector, parseCollectorString, SplitN2.
    rewrite (cut_absent _ _ Hs). reflexivity.
  - intro destination. reflexivity.
  - intro destination. reflexivity.
  - intros kind destination Hkind Hinflux Hjson. unfold makeCollector.
    rewrite (parseCollectorString_first _ _ Hkind). simpl.
    apply String.eqb_neq in Hinflux. apply String.eqb_neq in Hjson.
    rewrite Hinflux, Hjson. reflexivity.
Qed.

End Collectors.

Lemma makeCollector_by_kind_witness :
  ~ In "="%char (list_ascii_of_string "stdout") /\
  makeCollector (W := Fixture.urlFile) "stdout" =
  Err (errors_New "Malformed output; must be in the form 'type=url'") /\
  ~ In "="%char (list_ascii_of_string "csv") /\
  makeCollector (W := Fixture.urlFile) "csv=out.csv" =
  Err (errors_New "Unknown output type: csv").
Proof.
  assert (H1 : ~ In "="%char (list_ascii_of_string "stdout")).
  { simpl. intros [H|[H|[H|[H|[H|[H|[]]]]]]]; discriminate. }
  assert (H2 : ~ In "="%char (list_ascii_of_string "csv")).
  { simpl. intros [H|[H|[H|[]]]]; discriminate. }
  split; [exact H1|]. split.
  - exact (proj1 (makeCollector_by_kind (W := Fixture.urlFile)) "stdout" H1).
  - split; [exact H2|].
    exact (proj2 (proj2 (proj2 (makeCollector_by_kind (W := Fixture.urlFile))))
             "csv" "out.csv" H2 ltac:(discriminate) ltac:(discriminate)).
Defined.

(** ** Option merge *)

Lemma lastValid_valid {A : Type} (layers : list (Null A)) (n : Null A) :
  lastValid layers = Some n -> Valid n = true.
Proof.
  induction layers as [|m above IH]; simpl; [discriminate|].
  destruct (lastValid above) as [k|].
  - intro H. injection H as <-. now apply IH.
  - destruct (Valid m) eqn:Hm; [|discriminate].
    intro H. injection H as <-. exact Hm.
Qed.

Lemma overwrite_fold {A : Type} (layers : list (Null A)) (base : Null A) :
  fold_left overwrite layers base =
  match lastValid layers with
  | Some n => n
  | None => base
  end.
Proof.
  revert base. induction layers as [|m above IH]; intro base; simpl.
  - reflexivity.
  - rewrite IH. destruct (lastValid above) as [k|]; [reflexivity|].
    unfold overwrite. destruct (Valid m); reflexivity.
Qed.

Lemma field_fold {A : Type} (field : Options -> Null A) :
  (forall a b, field (Apply a b) = overwrite (field a) (field b)) ->
  forall layers base,
    field (fold_left Apply layers base) =
    fold_left overwrite (map field layers) (field base).
Proof.
  intros Hfield layers.
  induction layers as [|o above IH]; intro base; simpl.
  - reflexivity.
  - rewrite IH, Hfield. reflexivity.
Qed.

(** A field some layer sets keeps, through [lockDefaults], the value of
    the highest layer that sets it. *)
Lemma field_precedence {A : Type} (field : Options -> Null A) :
  (forall a b, field (Apply a b) = overwrite (field a) (field b)) ->
  (forall o, Valid (field o) = true ->
             value (field (lockDefaults o)) = value (field o)) ->
  forall base layers n,
    lastValid (map field (base :: layers)) = Some n ->
    value (field (lockDefaults (fold_left Apply layers base))) = value n.
Proof.
  intros Hfield Hlock base layers n Hlast.
  assert (Hn : Valid n = true) by exact (lastValid_valid _ _ Hlast).
  assert (Hm : field (fold_left Apply layers base) = n).
  { rewrite (field_fold field Hfield), overwrite_fold.
    simpl in Hlast. destruct (lastValid (map field layers)) as [k|].
    - now injection Hlast.
    - destruct (Valid (field base)); [now injection Hlast|discriminate]. }
  rewrite Hlock; rewrite Hm; [reflexivity|exact Hn].
Qed.

Lemma lockDefaults_keeps :
  eachField (fun A field =>
    forall o, Valid (field o) = true ->
              value (field (lockDefaults o)) = value (field o)).
Proof.
  unfold eachField, lockDefaults.
  repeat match goal with |- _ /\ _ => split end;
    intros o Ho; destruct (Valid (VUsMax o)) eqn:Hmax; simpl;
    solve [reflexivity | discriminate].
Qed.

Section OptionMerge.

Context {W : World}.

Lemma readConfigs_fold (filenames : list string) (configs : list Options) :
  configsRead filenames configs ->
  forall opts, readConfigs filenames opts = Ok (fold_left Apply configs opts).
Proof.
  induction 1 as [|filename configOpts filenames configs [data [Hf Hy]] _ IH];
    intro opts; simpl.
  - reflexivity.
  - rewrite Hf, Hy. apply IH.
Qed.

Lemma mergeOptions_fold (cc : Context) (runner : Runner)
  (configs : list Options) :
  configsRead (flag_config cc) configs ->
  mergeOptions cc runner =
  Ok (lockDefaults
        (fold_left Apply (GetOptions runner :: configs) (cliOptions cc))).
Proof.
  intro Hread. unfold mergeOptions.
  rewrite (readConfigs_fold _ _ Hread). reflexivity.
Qed.

(** The order in which [actionRun] applies the layers: when the config
    files are read, the options of the run are the CLI flags with the
    runner's options and then the config files, in the order given,
    applied over them; a field set in some layer carries the value of the
    last of these layers that sets it. *)
Theorem mergeOptions_precedence (cc : Context) (runner : Runner)
  (configs : list Options) :
  configsRead (flag_config cc) configs ->
  exists final,
    mergeOptions cc runner = Ok final /\
    followsPrecedence (cliOptions cc :: GetOptions runner :: configs) final.
Proof.
  intro Hread. eexists. split; [exact (mergeOptions_fold _ _ _ Hread)|].
  pose proof lockDefaults_keeps as Hkeep.
  unfold followsPrecedence, eachField in *.
  repeat match goal with H : _ /\ _ |- _ => destruct H as [? H] end.
  repeat match goal with |- _ /\ _ => split end;
    intros n Hn;
    apply (field_precedence _ (fun a b => eq_refl));
    assumption.
Qed.

(** C7, amended: when the config files are read, a [VUsMax] that no layer
    has set takes the value of [VUs], so that then [VUsMax = VUs]; a
    [VUsMax] that some layer has set keeps its value, whatever [VUs] is;
    [VUs] keeps its merged value and every field ends valid. *)
Theorem mergeOptions_vusmax (cc : Context) (runner : Runner)
  (configs : list Options) :
  configsRead (flag_config cc) configs ->
  let merged :=
    fold_left Apply (GetOptions runner :: configs) (cliOptions cc) in
  exists final,
    mergeOptions cc runner = Ok final /\
    value (VUs final) = value (VUs merged) /\
    (Valid (VUsMax merged) = false ->
     value (VUsMax final) = value (VUs final)) /\
    (Valid (VUsMax merged) = true ->
     value (VUsMax final) = value (VUsMax merged)) /\
    eachField (fun A field => Valid (field final) = true).
Proof.
  intros Hread merged. eexists.
  split; [exact (mergeOptions_fold _ _ _ Hread)|].
  fold merged. unfold lockDefaults.
  destruct (Valid (VUsMax merged)) eqn:Hmax; simpl;
    (split; [reflexivity|]);
    (split; [intro; solve [reflexivity | discriminate]|]);
    (split; [intro; solve [reflexivity | discriminate]|]);
    unfold eachField; repeat split.
Qed.

End OptionMerge.

(** ** Option merge on examples *)

Lemma two_configs_read :
  configsRead (W := Fixture.scripted false)
    (flag_config Fixture.runTwoConfigs)
    [Fixture.vusOnly 20; Fixture.vusOnly 30].
Proof.
  constructor; [exists "vus: 20"; split; reflexivity|].
  constructor; [exists "vus: 30"; split; reflexivity|].
  constructor.
Defined.

Lemma mergeOptions_precedence_witness :
  configsRead (W := Fixture.scripted false)
    (flag_config Fixture.runTwoConfigs)
    [Fixture.vusOnly 20; Fixture.vusOnly 30] /\
  exists final,
    mergeOptions (W := Fixture.scripted false) Fixture.runTwoConfigs
      (Fixture.mkRunner (Fixture.vusOnly 7) None) = Ok final /\
    value (VUs final) = 30.
Proof.
  split; [exact two_configs_read|].
  destruct (mergeOptions_precedence (W := Fixture.scripted false)
              Fixture.runTwoConfigs
              (Fixture.mkRunner (Fixture.vusOnly 7) None)
              [Fixture.vusOnly 20; Fixture.vusOnly 30] two_configs_read)
    as [final [Hmerge Hfollows]].
  exists final. split; [exact Hmerge|].
  destruct Hfollows as [_ [Hvus _]].
  exact (Hvus (mkNull 30 true) eq_refl).
Defined.

Lemma mergeOptions_vusmax_witness :
  configsRead (W := Fixture.scripted false)
    (flag_config Fixture.runTwoConfigs)
    [Fixture.vusOnly 20; Fixture.vusOnly 30] /\
  exists final,
    mergeOptions (W := Fixture.scripted false) Fixture.runTwoConfigs
      (Fixture.mkRunner (Fixture.vusOnly 7) None) = Ok final /\
    value (VUsMax final) = value (VUs final).
Proof.
  split; [exact two_configs_read|].
  destruct (mergeOptions_vusmax (W := Fixture.scripted false)
              Fixture.runTwoConfigs
              (Fixture.mkRunner (Fixture.vusOnly 7) None)
              [Fixture.vusOnly 20; Fixture.vusOnly 30] two_configs_read)
    as [final [Hmerge [_ [Hunset _]]]].
  exists final. split; [exact Hmerge|].
  exact (Hunset eq_refl).
Defined.

(** C1: [actionRun] does not give the CLI flags the highest precedence.
    With [--vus 5] given on the command line and a script that declares
    7 VUs, the source resolves to that script, the run has 7 VUs and the
    precedence runner, config files, CLI flags does not hold: the
    options of the script are applied over the flag that was given,
    although the description of the command has the parameters passed to
    [run] applied last, as an API call would. *)
Lemma cli_precedence_counterexample :
  (srcdata <- getSrcData (W := Fixture.scripted false) "script.js" "auto" ;;
   makeRunner (W := Fixture.scripted false) srcdata) =
  Ok (Fixture.mkRunner (Fixture.vusOnly 7) None) /\
  (exists final,
     mergeOptions (W := Fixture.scripted false) Fixture.runVus5
       (Fixture.mkRunner (Fixture.vusOnly 7) None) = Ok final /\
     value (VUs final) = 7) /\
  ~ mergeAsSpecified (W := Fixture.scripted false) Fixture.runVus5
      (Fixture.mkRunner (Fixture.vusOnly 7) None) [].
Proof.
  split; [reflexivity|]. split.
  - eexists. split; reflexivity.
  - intro Hspec.
    destruct (Hspec _ eq_refl) as [_ [Hvus _]].
    specialize (Hvus (mkNull 5 true) eq_refl). discriminate.
Qed.

(** C7 as stated fails: [--vus 10 --max 5] leaves [VUsMax = 5] below
    [VUs = 10]; the merge does not compare the two. *)
Lemma vusmax_counterexample :
  (exists final,
     mergeOptions (W := Fixture.scripted false) Fixture.runVus10Max5
       (Fixture.mkRunner Fixture.noOptions None) = Ok final /\
     value (VUs final) = 10 /\ value (VUsMax final) = 5) /\
  ~ vusMaxAsSpecified (W := Fixture.scripted false) Fixture.runVus10Max5
      (Fixture.mkRunner Fixture.noOptions None).
Proof.
  split.
  - eexists. repeat split; reflexivity.
  - intro Hspec. apply (Hspec _ eq_refl). reflexivity.
Qed.

(** ** Exit status *)

Section ExitStatus.

Context {W : World}.


















End ExitStatus.




(** * Further properties *)

(** ** Collector strings *)

Lemma cut_some (sep : ascii) (s pre post : string) :
  cut s sep = Some (pre, post) ->
  s = pre ++ String sep post /\
  ~ In sep (list_ascii_of_string pre).
Proof.
  revert pre. induction s as [|c rest IH]; simpl; intro pre.
  - discriminate.
  - destruct (Ascii.eqb_spec c sep) as [-> | Hc].
    + intro H. injection H as <- <-. split; [reflexivity|]. intros [].
    + destruct (cut rest sep) as [[b a]|]; [|discriminate].
      intro H. injection H as <- <-.
      destruct (IH b eq_refl) as [-> Hnot]. split; [reflexivity|].
      simpl. intros [Heq | Hin]; [now apply Hc | now apply Hnot].
Qed.

Lemma cut_none (sep : ascii) (s : string) :
  cut s sep = None -> ~ In sep (list_ascii_of_string s).
Proof.
  induction s as [|c rest IH]; simpl; [intros _ []|].
  destruct (Ascii.eqb_spec c sep) as [-> | Hc]; [discriminate|].
  destruct (cut rest sep) as [[b a]|]; [discriminate|].
  intros _ [Heq | Hin]; [now apply Hc | now apply IH].
Qed.

Lemma parseCollectorString_split (s t p : string) :
  parseCollectorString s = Ok (t, p) -> s = t ++ "=" ++ p.
Proof.
  unfold parseCollectorString, SplitN2.
  destruct (cut s "=") as [[before after]|] eqn:Hcut; simpl.
  - intro H. injection H as <- <-. exact (proj1 (cut_some _ _ _ _ Hcut)).
  - discriminate.
Qed.

(** X1: [parseCollectorString] splits at the first "=" and loses nothing:
    it returns [(t, p)] exactly when the string is [t], "=", [p] and [t]
    has no "=". *)
Theorem parseCollectorString_round_trip (s t p : string) :
  parseCollectorString s = Ok (t, p) <->
  (s = t ++ "=" ++ p /\ ~ In "="%char (list_ascii_of_string t)).
Proof.
  split.
  - unfold parseCollectorString, SplitN2.
    destruct (cut s "=") as [[before after]|] eqn:Hcut; simpl.
    + intro H. injection H as <- <-. exact (cut_some _ _ _ _ Hcut).
    + discriminate.
  - intros [-> Ht]. unfold parseCollectorString, SplitN2.
    change ("=" ++ p) with (String "=" p).
    rewrite (cut_first _ _ _ Ht). reflexivity.
Qed.

(** X2: [parseCollectorString] fails exactly on the strings without "=",
    the empty string among them, and then with the malformed-output
    error. *)
Theorem parseCollectorString_malformed (s : string) (e : error) :
  parseCollectorString s = Err e <->
  (~ In "="%char (list_ascii_of_string s) /\
   e = errors_New "Malformed output; must be in the form 'type=url'").
Proof.
  unfold parseCollectorString, SplitN2. split.
  - destruct (cut s "=") as [[before after]|] eqn:Hcut; simpl.
    + discriminate.
    + intro H. injection H as <-. split; [|reflexivity].
      exact (cut_none _ _ Hcut).
  - intros [Hs ->]. rewrite (cut_absent _ _ Hs). reflexivity.
Qed.

Section MoreCollectors.

Context {W : World}.

(** X3: [makeCollector] hands out a collector only as the influxdb or
    the json constructor made it, from the text after the first "=". *)
Theorem makeCollector_known_kinds (s : string) (c : Collector) :
  makeCollector s = Ok c ->
  (exists p, s = "influxdb=" ++ p /\ influxdb_New p = Success c) \/
  (exists p, s = "json=" ++ p /\ json_New p = Success c).
Proof.
  unfold makeCollector.
  destruct (parseCollectorString s) as [[t p]|e] eqn:Hparse; simpl;
    [|discriminate].
  apply parseCollectorString_split in Hparse.
  destruct (String.eqb_spec t "influxdb") as [-> | _].
  { intro H. left. exists p. split; [exact Hparse|].
    destruct (influxdb_New p); simpl in H; [|discriminate].
    now injection H as <-. }
  destruct (String.eqb_spec t "json") as [-> | _]; [|discriminate].
  intro H. right. exists p. split; [exact Hparse|].
  destruct (json_New p); simpl in H; [|discriminate].
  now injection H as <-.
Qed.

End MoreCollectors.

(** ** More on source resolution *)

Section MoreSources.

Context {W : World}.

(** Every way through [getSrcData], as goals on its result. *)
Ltac source_cases :=
  unfold getSrcData;
  repeat match goal with
         | |- context [String.eqb ?a ?b] =>
             destruct (String.eqb_spec a b); simpl
         | |- context [looksLikeURL ?a] =>
             destruct (looksLikeURL a) eqn:?; simpl
         | |- context [ReadFile ?a] => destruct (ReadFile a) eqn:?; simpl
         | |- context [ReadAll_Stdin] => destruct ReadAll_Stdin eqn:?; simpl
         end;
  try discriminate;
  let H := fresh "Hsd" in
  intro H; injection H as <-; simpl.

(** X4: [getSrcData] never returns a source of type auto: a type other
    than auto is returned as given, and auto is resolved to url or js. *)
Theorem getSrcData_resolves_type (arg t : string) (sd : SourceData) :
  getSrcData arg t = Ok sd ->
  SrcType sd <> TypeAuto /\
  (t <> TypeAuto -> SrcType sd = t) /\
  (t = TypeAuto -> SrcType sd = TypeURL \/ SrcType sd = TypeJS).
Proof.
  assert (Hurl : TypeURL <> TypeAuto) by discriminate.
  assert (Hjs : TypeJS <> TypeAuto) by discriminate.
  source_cases; subst;
    repeat split; intros; try congruence; auto;
    try (exfalso; congruence).
Qed.

(** X5: with an argument other than "-", [getSrcData] names the source
    [[cmdline]] with the argument itself as content, or after the
    argument with the content of that file, or after the argument with
    empty content when the type is none of auto, url and js.  So, when
    the argument is not itself the text [[cmdline]], a source named
    [[cmdline]] holds the argument and a source named after the argument
    holds what was read from that file (or nothing, for an unknown
    type). *)
Theorem getSrcData_labels (arg t : string) (sd : SourceData) :
  arg <> "-" ->
  getSrcData arg t = Ok sd ->
  ((Filename sd = cmdline /\ SrcData sd = arg) \/
   (Filename sd = arg /\ ReadFile arg = Success (SrcData sd)) \/
   (Filename sd = arg /\ SrcData sd = EmptyString /\
    t <> TypeAuto /\ t <> TypeURL /\ t <> TypeJS)) /\
  (arg <> cmdline ->
   (Filename sd = cmdline -> SrcData sd = arg) /\
   (Filename sd = arg ->
    ReadFile arg = Success (SrcData sd) \/
    (SrcData sd = EmptyString /\
     t <> TypeAuto /\ t <> TypeURL /\ t <> TypeJS))).
Proof.
  intros Harg Hget.
  assert (Hcases :
    (Filename sd = cmdline /\ SrcData sd = arg) \/
    (Filename sd = arg /\ ReadFile arg = Success (SrcData sd)) \/
    (Filename sd = arg /\ SrcData sd = EmptyString /\
     t <> TypeAuto /\ t <> TypeURL /\ t <> TypeJS)).
  { revert Hget. source_cases; try contradiction; subst; auto 10. }
  split; [exact Hcases|].
  intro Hname. split.
  - intro Hcmd.
    destruct Hcases as [[_ Hdata] | [[Hfile _] | [Hfile _]]];
      [exact Hdata | congruence | congruence].
  - intro Hfile.
    destruct Hcases as [[Hcmd _] | [[_ Hread] | [_ Hempty]]];
      [congruence | now left | now right].
Qed.

Lemma looksLikeURL_parsed (s : string) :
  looksLikeURL s = true ->
  exists u, url_Parse (TrimSpace s) = Success u /\ Scheme u <> EmptyString.
Proof.
  unfold looksLikeURL.
  destruct (url_Parse (TrimSpace s)) as [u|]; [|discriminate].
  intro H. exists u. split; [reflexivity|].
  destruct (String.eqb_spec (Scheme u) EmptyString); [discriminate|assumption].
Qed.

Lemma auto_url_looks (arg : string) (sd : SourceData) :
  getSrcData arg TypeAuto = Ok sd -> SrcType sd = TypeURL ->
  looksLikeURL (SrcData sd) = true.
Proof.
  source_cases; intro Ht; simpl in *;
    try assumption; try discriminate; congruence.
Qed.

(** X6: a source that [--type=auto] resolved to a URL always passes the
    URL check of [makeRunner]: the runner is whatever [simple.New] makes
    of the parsed URL. *)
Theorem auto_url_reaches_simple (arg : string) (sd : SourceData) :
  getSrcData arg TypeAuto = Ok sd -> SrcType sd = TypeURL ->
  exists u,
    url_Parse (TrimSpace (SrcData sd)) = Success u /\
    Scheme u <> EmptyString /\
    makeRunner sd = plain (simple_New u).
Proof.
  intros Hget Ht.
  destruct (looksLikeURL_parsed _ (auto_url_looks _ _ Hget Ht))
    as [u [Hparse Hscheme]].
  exists u. split; [exact Hparse|]. split; [exact Hscheme|].
  unfold makeRunner. rewrite Ht, Hparse. simpl.
  apply String.eqb_neq in Hscheme. rewrite Hscheme. reflexivity.
Qed.

End MoreSources.

(** ** Config files and defaults *)

Section MoreOptions.

Context {W : World}.

(** X7: the config loop ends at the first file that cannot be read or
    decoded, with a [cli.ExitError] of code 1 that carries the message of
    that failure; the files after it are not looked at. *)
Theorem readConfigs_first_failure
  (good : list string) (configs : list Options) (bad msg : string)
  (rest : list string) (opts : Options) :
  configsRead good configs ->
  (ReadFile bad = Failure msg \/
   exists data, ReadFile bad = Success data /\
                yaml_Unmarshal data = Failure msg) ->
  readConfigs (good ++ bad :: rest)%list opts = Err (NewExitError msg 1).
Proof.
  intros Hgood Hbad. revert opts.
  induction Hgood as [|filename configOpts good configs [data [Hf Hy]] _ IH];
    intro opts; simpl.
  - destruct Hbad as [Hf | [data [Hf Hy]]].
    + rewrite Hf. reflexivity.
    + rewrite Hf, Hy. reflexivity.
  - rewrite Hf, Hy. apply IH.
Qed.

(** X8: reading two lists of config files one after the other is reading
    their concatenation: the second list is applied to the options the
    first one gave, and an error of the first list ends the whole. *)
Theorem readConfigs_app (first second : list string) (opts : Options) :
  readConfigs (first ++ second)%list opts =
  (opts' <- readConfigs first opts ;; readConfigs second opts').
Proof.
  revert opts. induction first as [|filename rest IH]; intro opts; simpl.
  - reflexivity.
  - destruct (ReadFile filename) as [data|]; [|reflexivity].
    destruct (yaml_Unmarshal data) as [configOpts|]; [|reflexivity].
    apply IH.
Qed.

Lemma readConfigs_read (filenames : list string) (opts final : Options) :
  readConfigs filenames opts = Ok final ->
  exists configs,
    configsRead filenames configs /\ final = fold_left Apply configs opts.
Proof.
  revert opts. induction filenames as [|filename rest IH]; intro opts; simpl.
  - intro H. injection H as <-. exists []. split; [constructor|reflexivity].
  - destruct (ReadFile filename) as [data|] eqn:Hf; [|discriminate].
    destruct (yaml_Unmarshal data) as [configOpts|] eqn:Hy; [|discriminate].
    intro H. destruct (IH _ H) as [configs [Hread ->]].
    exists (configOpts :: configs). split; [|reflexivity].
    constructor; [|exact Hread]. exists data. now split.
Qed.

(** X9: the merge of [actionRun] yields options exactly when every config
    file is read and decoded, and they are then the CLI flags with the
    runner's options and the configs applied in order, defaults locked;
    nothing else can make it fail. *)
Theorem mergeOptions_succeeds_iff (cc : Context) (runner : Runner)
  (final : Options) :
  mergeOptions cc runner = Ok final <->
  exists configs,
    configsRead (flag_config cc) configs /\
    final = lockDefaults
              (fold_left Apply (GetOptions runner :: configs)
                 (cliOptions cc)).
Proof.
  split.
  - unfold mergeOptions.
    destruct (readConfigs (flag_config cc)
                (Apply (cliOptions cc) (GetOptions runner)))
      as [merged|e] eqn:Hread; simpl; [|discriminate].
    intro H. injection H as <-.
    destruct (readConfigs_read _ _ _ Hread) as [configs [Hconfigs ->]].
    exists configs. split; [exact Hconfigs|reflexivity].
  - intros [configs [Hconfigs ->]]. now apply mergeOptions_fold.
Qed.

Lemma field_default {A : Type} (field : Options -> Null A) :
  (forall a b, field (Apply a b) = overwrite (field a) (field b)) ->
  (forall o, value (field (lockDefaults o)) = value (field o)) ->
  forall base layers,
    lastValid (map field layers) = None ->
    value (field (lockDefaults (fold_left Apply layers base))) =
    value (field base).
Proof.
  intros Hfield Hlock base layers Hnone.
  rewrite Hlock, (field_fold field Hfield), overwrite_fold, Hnone.
  reflexivity.
Qed.

(** X10: a field that neither the runner nor a config file sets runs
    with the value of its CLI flag, which is the flag's default when the
    flag was not given; [Thresholds], which has no flag, is then empty.
    ([VUsMax] is the exception: unset, it takes the value of [VUs].) *)
Theorem mergeOptions_cli_defaults (cc : Context) (runner : Runner)
  (configs : list Options) :
  configsRead (flag_config cc) configs ->
  let layers := (GetOptions runner :: configs)%list in
  exists final,
    mergeOptions cc runner = Ok final /\
    (lastValid (map Paused layers) = None ->
     value (Paused final) = flagValue (flag_paused cc)) /\
    (lastValid (map VUs layers) = None ->
     value (VUs final) = flagValue (flag_vus cc)) /\
    (lastValid (map Duration layers) = None ->
     value (Duration final) = flagValue (flag_duration cc)) /\
    (lastValid (map Linger layers) = None ->
     value (Linger final) = flagValue (flag_linger cc)) /\
    (lastValid (map AbortOnTaint layers) = None ->
     value (AbortOnTaint final) = flagValue (flag_abort_on_taint cc)) /\
    (lastValid (map Acceptance layers) = None ->
     value (Acceptance final) = flagValue (flag_acceptance cc)) /\
    (lastValid (map MaxRedirects layers) = None ->
     value (MaxRedirects final) = flagValue (flag_max_redirects cc)) /\
    (lastValid (map Thresholds layers) = None ->
     value (Thresholds final) = []).
Proof.
  intros Hread layers. eexists.
  split; [exact (mergeOptions_fold _ _ _ Hread)|].
  fold layers.
  repeat match goal with |- _ /\ _ => split end; intro Hnone;
    match goal with
    | |- value (?field _) = _ =>
        refine (field_default field (fun a b => eq_refl) _
                  (cliOptions cc) layers Hnone);
        intro o; unfold lockDefaults;
        destruct (negb (Valid (VUsMax o))); reflexivity
    end.
Qed.

End MoreOptions.

(** ** Inspection *)

Lemma lastValid_app {A : Type} (lower layers : list (Null A)) (n : Null A) :
  lastValid layers = Some n -> lastValid (lower ++ layers) = Some n.
Proof.
  intro Hn. induction lower as [|m lower IH]; simpl; [exact Hn|].
  now rewrite IH.
Qed.

(** A field that is set after applying [layers] to the zero options has
    the same value when the same layers are applied, above others, to any
    base and the defaults are locked. *)
Lemma shown_field {A : Type} (field : Options -> Null A) :
  (forall a b, field (Apply a b) = overwrite (field a) (field b)) ->
  Valid (field zeroOptions) = false ->
  (forall o, Valid (field o) = true ->
             value (field (lockDefaults o)) = value (field o)) ->
  forall lower layers base,
    Valid (field (fold_left Apply layers zeroOptions)) = true ->
    value (field (lockDefaults (fold_left Apply (lower ++ layers) base))) =
    value (field (fold_left Apply layers zeroOptions)).
Proof.
  intros Hfield Hzero Hlock lower layers base Hvalid.
  apply (field_precedence field Hfield Hlock).
  change (map field (base :: lower ++ layers))
    with (map field ((base :: lower) ++ layers)).
  rewrite map_app. apply lastValid_app.
  rewrite (field_fold field Hfield), overwrite_fold in Hvalid |- *.
  destruct (lastValid (map field layers)); [reflexivity|congruence].
Qed.

Section Inspection.

Context {W : World} {I : Inspector}.

(** X11: [inspect] does not check the input type: with a type that is
    none of auto, url and js (and an argument other than "-") it dumps
    what the config files give, where [run] stops with the invalid-type
    error. *)
Theorem inspect_accepts_unknown_type (cc : Context) (arg : string) :
  Args cc = [arg] -> arg <> "-" ->
  flag_type cc <> TypeAuto -> flag_type cc <> TypeURL ->
  flag_type cc <> TypeJS ->
  actionInspect cc =
  (opts <- readConfigs (flag_config cc) zeroOptions ;; dumpYAML opts) /\
  actionRun cc = Err (errors_New "Invalid type specified, see --help").
Proof.
  intros Hargs Harg Hauto Hurl Hjs.
  assert (Hget : getSrcData arg (flag_type cc) =
                 Ok {| SrcData := EmptyString; Filename := arg;
                       SrcType := flag_type cc |}).
  { unfold getSrcData. rewrite (not_dash _ Harg).
    rewrite (other_type _ _ Hauto), (other_type _ _ Hurl),
      (other_type _ _ Hjs).
    simpl. rewrite (other_type _ _ Hauto). reflexivity. }
  split.
  - unfold actionInspect. rewrite Hargs, Hget. simpl.
    unfold inspectOptions. simpl. rewrite (other_type _ _ Hjs).
    reflexivity.
  - unfold actionRun. rewrite Hargs, Hget. simpl.
    unfold makeRunner. simpl.
    rewrite (other_type _ _ Hurl), (other_type _ _ Hjs).
    destruct (flag_type cc =? EmptyString); reflexivity.
Qed.

(** X12: what [inspect] shows as set is what [run] uses: provided the
    runner made from a loaded script declares the options the runtime
    holds after loading it, every field that is valid in the options
    [inspect] dumps has the same value in the options of the run, for the
    same source and command line. *)
Theorem inspect_agrees_with_run
  (cc : Context) (srcdata : SourceData) (runner : Runner)
  (shown final : Options) :
  (forall rt sd exports r,
     Load rt sd = Success exports -> js_NewRunner rt exports = Success r ->
     GetOptions r = loadedOptions rt sd) ->
  makeRunner srcdata = Ok runner ->
  inspectOptions cc srcdata = Ok shown ->
  mergeOptions cc runner = Ok final ->
  eachField (fun A field =>
    Valid (field shown) = true -> value (field final) = value (field shown)).
Proof.
  intros Hjs Hrunner Hshown Hfinal.
  assert (Hlayers :
    exists lower layers,
      shown = fold_left Apply layers zeroOptions /\
      final = lockDefaults (fold_left Apply (lower ++ layers) (cliOptions cc))).
  { unfold inspectOptions in Hshown.
    destruct (String.eqb_spec (SrcType srcdata) TypeJS) as [Htype | Htype].
    - unfold makeRunner in Hrunner. rewrite Htype in Hrunner.
      simpl in Hrunner, Hshown. revert Hrunner Hshown.
      destruct js_New as [rt|]; simpl; [|discriminate].
      destruct (Load rt srcdata) as [exports|] eqn:Hload; simpl;
        [|discriminate].
      destruct (js_NewRunner rt exports) as [r|] eqn:Hnew; simpl;
        [|discriminate].
      intros Hrunner Hshown. injection Hrunner as ->.
      destruct (readConfigs_read _ _ _ Hshown) as [configs [Hread ->]].
      rewrite (mergeOptions_fold _ _ _ Hread) in Hfinal.
      injection Hfinal as <-.
      exists [], (GetOptions runner :: configs).
      rewrite (Hjs _ _ _ _ Hload Hnew). split; reflexivity.
    - simpl in Hshown.
      destruct (readConfigs_read _ _ _ Hshown) as [configs [Hread ->]].
      rewrite (mergeOptions_fold _ _ _ Hread) in Hfinal.
      injection Hfinal as <-.
      exists [GetOptions runner], configs. split; reflexivity. }
  destruct Hlayers as [lower [layers [-> ->]]].
  pose proof lockDefaults_keeps as Hkeep.
  unfold eachField in *.
  repeat match goal with H : _ /\ _ |- _ => destruct H as [? H] end.
  repeat match goal with |- _ /\ _ => split end;
    match goal with
    | |- _ -> value (?field _) = _ =>
        apply (shown_field field (fun a b => eq_refl) eq_refl); assumption
    end.
Qed.

End Inspection.

(** ** The summary *)

Lemma thresholdLoop_result (icon : string) (thresholds : list Threshold) :
  thresholdLoop icon thresholds =
  if existsb Failed thresholds then "✗"
  else match thresholds with
       | [] => icon
       | _ :: _ => "✓"
       end.
Proof.
  revert icon. induction thresholds as [|th rest IH]; intro icon; simpl.
  - reflexivity.
  - destruct (Failed th); simpl; [reflexivity|].
    rewrite IH. destruct (existsb Failed rest); [reflexivity|].
    destruct rest; reflexivity.
Qed.

(** X13: the icon of a metric line is the cross exactly when one of the
    metric's thresholds has failed, the tick exactly when it has
    thresholds and none has failed, and a blank exactly when it has no
    threshold. *)
Theorem thresholdIcon_meaning (thresholds : list Threshold) :
  (thresholdIcon thresholds = "✗" <->
   (exists th, In th thresholds /\ Failed th = true)) /\
  (thresholdIcon thresholds = "✓" <->
   (thresholds <> [] /\ forall th, In th thresholds -> Failed th = false)) /\
  (thresholdIcon thresholds = " " <-> thresholds = []).
Proof.
  unfold thresholdIcon. rewrite thresholdLoop_result.
  destruct (existsb Failed thresholds) eqn:Hex.
  - apply existsb_exists in Hex.
    split; [|split]; split.
    + intros _. exact Hex.
    + intros _. reflexivity.
    + discriminate.
    + intros [_ Hall]. destruct Hex as [th [Hin Hth]].
      rewrite (Hall th Hin) in Hth. discriminate.
    + discriminate.
    + intros ->. destruct Hex as [th [[] _]].
  - assert (Hall : forall th, In th thresholds -> Failed th = false).
    { intros th Hin. destruct (Failed th) eqn:Hth; [|reflexivity].
      assert (Hyes : existsb Failed thresholds = true)
        by (apply existsb_exists; exists th; now split).
      congruence. }
    clear Hex. revert Hall. destruct thresholds as [|th rest]; intro Hall.
    + split; [|split]; split.
      * discriminate.
      * intros [th [[] _]].
      * discriminate.
      * intros [Hne _]. now elim Hne.
      * intros _. reflexivity.
      * intros _. reflexivity.
    + split; [|split]; split.
      * discriminate.
      * intros [th' [Hin Hth']]. rewrite (Hall th' Hin) in Hth'.
        discriminate.
      * intros _. split; [discriminate|exact Hall].
      * intros _. reflexivity.
      * discriminate.
      * discriminate.
Qed.

Lemma Group_induction (P : Group -> Prop) :
  (forall name hasParent checks groups,
     Forall P groups -> P (mkGroup name hasParent checks groups)) ->
  forall g, P g.
Proof.
  intro Hstep. fix IH 1. intros [name hasParent checks groups].
  apply Hstep. induction groups as [|g rest IHrest]; constructor.
  - apply IH.
  - exact IHrest.
Qed.

Lemma checkLines_app (out out' : list Printed) :
  checkLines (out ++ out') = (checkLines out ++ checkLines out')%list.
Proof.
  induction out as [|p rest IH]; simpl; [reflexivity|].
  destruct p; simpl; now rewrite IH.
Qed.

Lemma headerLines_app (out out' : list Printed) :
  headerLines (out ++ out') = (headerLines out ++ headerLines out')%list.
Proof.
  induction out as [|p rest IH]; simpl; [reflexivity|].
  destruct p; simpl; now rewrite IH.
Qed.

Lemma checkLines_checks (indent : string) (checks : list Check) :
  checkLines (map (printCheck indent) checks) =
  map (fun c => (if (0 <? Fails c)%Z then "✗" else "✓",
                 Passes c, Fails c, CheckName c)) checks.
Proof.
  induction checks as [|c rest IH]; simpl; [reflexivity|].
  now rewrite IH.
Qed.

Lemma headerLines_checks (indent : string) (checks : list Check) :
  headerLines (map (printCheck indent) checks) = [].
Proof. induction checks as [|c rest IH]; simpl; [reflexivity|exact IH]. Qed.

Lemma printGroup_unfold (name : string) (hasParent : bool)
  (checks : list Check) (groups : list Group) (level : nat) :
  printGroup (mkGroup name hasParent checks groups) level =
  let indent := Repeat "  " level in
  let named := (negb (name =? EmptyString) && hasParent)%bool in
  let hasChecks := Nat.ltb 0 (length checks) in
  ((if named then [GroupLine indent name] else []) ++
   (if hasChecks then
      (if named then [BlankLine] else []) ++
      map (printCheck indent) checks ++ [BlankLine]
    else []) ++
   (if Nat.ltb 0 (length groups) then
      (if (named && hasChecks)%bool then [BlankLine] else []) ++
      flat_map (fun g' => printGroup g' (level + 1)) groups
    else []))%list.
Proof. reflexivity. Qed.

Lemma checkLines_own (named : bool) (indent : string) (checks : list Check) :
  checkLines
    (if Nat.ltb 0 (length checks)
     then ((if named then [BlankLine] else []) ++
           map (printCheck indent) checks ++ [BlankLine])%list
     else []) =
  map (fun c => (if (0 <? Fails c)%Z then "✗" else "✓",
                 Passes c, Fails c, CheckName c)) checks.
Proof.
  destruct checks as [|c rest]; [reflexivity|].
  cbn [length Nat.ltb Nat.leb].
  rewrite !checkLines_app, checkLines_checks.
  destruct named; simpl; now rewrite app_nil_r.
Qed.

Lemma checkLines_subgroups (blank : bool) (sub : list Printed)
  (groups : list Group) :
  (groups = [] -> sub = []) ->
  checkLines
    (if Nat.ltb 0 (length groups)
     then ((if blank then [BlankLine] else []) ++ sub)%list
     else []) = checkLines sub.
Proof.
  destruct groups as [|g rest]; simpl.
  - intro H. now rewrite H.
  - intros _. rewrite checkLines_app. destruct blank; reflexivity.
Qed.

Lemma headerLines_own (named : bool) (indent : string)
  (checks : list Check) :
  headerLines
    (if Nat.ltb 0 (length checks)
     then ((if named then [BlankLine] else []) ++
           map (printCheck indent) checks ++ [BlankLine])%list
     else []) = [].
Proof.
  destruct (Nat.ltb 0 (length checks)); [|reflexivity].
  rewrite !headerLines_app, headerLines_checks.
  destruct named; reflexivity.
Qed.

Lemma headerLines_subgroups (blank : bool) (sub : list Printed)
  (groups : list Group) :
  (groups = [] -> sub = []) ->
  headerLines
    (if Nat.ltb 0 (length groups)
     then ((if blank then [BlankLine] else []) ++ sub)%list
     else []) = headerLines sub.
Proof.
  destruct groups as [|g rest]; simpl.
  - intro H. now rewrite H.
  - intros _. rewrite headerLines_app. destruct blank; reflexivity.
Qed.

Lemma check_lines_of_tree (g : Group) (level : nat) :
  checkLines (printGroup g level) =
  map (fun c => (if (0 <? Fails c)%Z then "✗" else "✓",
                 Passes c, Fails c, CheckName c))
      (checksOf g).
Proof.
  revert level. induction g as [name hasParent checks groups IH]
    using Group_induction. intro level.
  rewrite printGroup_unfold. cbv zeta.
  rewrite !checkLines_app, checkLines_own.
  rewrite checkLines_subgroups by (intros ->; reflexivity).
  replace (checkLines
             (if (negb (name =? EmptyString) && hasParent)%bool
              then [GroupLine (Repeat "  " level) name] else []))
    with (@nil (string * Z * Z * string))
    by (destruct (negb (name =? EmptyString) && hasParent)%bool;
        reflexivity).
  change (checksOf (mkGroup name hasParent checks groups))
    with (checks ++ flat_map checksOf groups)%list.
  rewrite map_app. simpl. f_equal.
  induction IH as [|g rest Hg _ IHrest]; simpl.
  - reflexivity.
  - now rewrite checkLines_app, map_app, Hg, IHrest.
Qed.


(** X14: [printGroup] prints one line for every check of the tree,
    whatever the level: the checks of a group before those of its
    subgroups, each with its counters and name, under the cross when it
    has failed at least once and under the tick otherwise. *)
Theorem printGroup_check_lines (g : Group) (level : nat) :
  checkLines (printGroup g level) =
  map (fun c => (if (0 <? Fails c)%Z then "✗" else "✓",
                 Passes c, Fails c, CheckName c))
      (checksOf g).
Proof. apply check_lines_of_tree. Qed.

Lemma headers_of_tree (g : Group) (level : nat) :
  headerLines (printGroup g level) = headersOf g.
Proof.
  revert level. induction g as [name hasParent checks groups IH]
    using Group_induction. intro level.
  rewrite printGroup_unfold. cbv zeta.
  rewrite !headerLines_app, headerLines_own.
  rewrite headerLines_subgroups by (intros ->; reflexivity).
  change (headersOf (mkGroup name hasParent checks groups))
    with ((if (negb (name =? EmptyString) && hasParent)%bool then [name]
           else []) ++ flat_map headersOf groups)%list.
  simpl. f_equal.
  - destruct (negb (name =? EmptyString) && hasParent)%bool; reflexivity.
  - induction IH as [|g rest Hg _ IHrest]; simpl.
    + reflexivity.
    + now rewrite headerLines_app, Hg, IHrest.
Qed.

(** X15: [printGroup] prints a header for every group of the tree that
    has a name and a parent, a group before its subgroups, and for no
    other group. *)
Theorem printGroup_headers (g : Group) (level : nat) :
  headerLines (printGroup g level) = headersOf g.
Proof. apply headers_of_tree. Qed.

Lemma Repeat_end (s : string) (count : nat) :
  Repeat s count ++ s = Repeat s (S count).
Proof.
  induction count as [|n IH]; simpl.
  - induction s as [|c rest IHs]; simpl; [reflexivity|].
    f_equal. exact IHs.
  - assert (Hassoc : forall x y z : string, (x ++ y) ++ z = x ++ (y ++ z)).
    { intros x y z. induction x as [|c rest IHx]; simpl;
        [reflexivity|now rewrite IHx]. }
    rewrite Hassoc, IH. reflexivity.
Qed.

Lemma margins_app (out out' : list Printed) :
  margins (out ++ out') = (margins out ++ margins out')%list.
Proof.
  induction out as [|p rest IH]; simpl; [reflexivity|].
  destruct (marginOf p); simpl; now rewrite IH.
Qed.

Lemma margins_own (named : bool) (level : nat) (checks : list Check) :
  margins
    (if Nat.ltb 0 (length checks)
     then ((if named then [BlankLine] else []) ++
           map (printCheck (Repeat "  " level)) checks ++ [BlankLine])%list
     else []) =
  map (Repeat "  ") (map (fun _ => S level) checks).
Proof.
  destruct checks as [|c rest]; [reflexivity|].
  cbn [length Nat.ltb Nat.leb].
  rewrite !margins_app.
  replace (margins (if named then [BlankLine] else [])) with (@nil string)
    by (destruct named; reflexivity).
  change (margins [BlankLine]) with (@nil string).
  rewrite app_nil_r. change ([] ++ ?x)%list with x.
  generalize (c :: rest). intro l.
  induction l as [|c' l IH]; simpl; [reflexivity|].
  rewrite IH. f_equal. apply (Repeat_end "  " level).
Qed.

Lemma margins_subgroups (blank : bool) (sub : list Printed)
  (groups : list Group) :
  (groups = [] -> sub = []) ->
  margins
    (if Nat.ltb 0 (length groups)
     then ((if blank then [BlankLine] else []) ++ sub)%list
     else []) = margins sub.
Proof.
  destruct groups as [|g rest]; simpl.
  - intro H. now rewrite H.
  - intros _. rewrite margins_app. destruct blank; reflexivity.
Qed.

Lemma margins_of_tree (g : Group) (level : nat) :
  margins (printGroup g level) = map (Repeat "  ") (marginUnits g level).
Proof.
  revert level. induction g as [name hasParent checks groups IH]
    using Group_induction. intro level.
  rewrite printGroup_unfold. cbv zeta.
  rewrite !margins_app, margins_own.
  rewrite margins_subgroups by (intros ->; reflexivity).
  change (marginUnits (mkGroup name hasParent checks groups) level)
    with ((if (negb (name =? EmptyString) && hasParent)%bool then [level]
           else []) ++
          map (fun _ => S level) checks ++
          flat_map (fun g' => marginUnits g' (S level)) groups)%list.
  rewrite !map_app. f_equal; [|f_equal].
  - destruct (negb (name =? EmptyString) && hasParent)%bool; reflexivity.
  - induction IH as [|g rest Hg _ IHrest]; simpl.
    + reflexivity.
    + rewrite margins_app, map_app, Hg, IHrest, Nat.add_1_r. reflexivity.
Qed.

Lemma marginUnits_from (g : Group) (depth : nat) :
  marginUnits g depth = map (fun units => (depth + units)%nat)
                            (marginUnits g 0).
Proof.
  revert depth. induction g as [name hasParent checks groups IH]
    using Group_induction. intro depth. simpl.
  rewrite !map_app. f_equal; [|f_equal].
  - destruct (negb (name =? EmptyString) && hasParent)%bool; simpl;
      [now rewrite Nat.add_0_r|reflexivity].
  - rewrite map_map. apply map_ext. intros _. now rewrite Nat.add_1_r.
  - induction IH as [|g rest Hg _ IHrest]; simpl.
    + reflexivity.
    + rewrite map_app, IHrest. f_equal.
      rewrite (Hg (S depth)), (Hg 1%nat), map_map.
      apply map_ext. intro units. lia.
Qed.

(** X16: the margin of the lines [printGroup] prints grows by exactly
    one two-space unit per nesting: printed at [level], the header of a
    group nested [d] groups below the one printed starts with [level + d]
    units, and a check line of that group, which the format sets two
    spaces further in, with [level + d + 1] units. *)
Theorem printGroup_margins (g : Group) (level : nat) :
  margins (printGroup g level) =
  map (fun units => Repeat "  " (level + units)) (marginUnits g 0).
Proof.
  rewrite margins_of_tree, marginUnits_from, map_map. reflexivity.
Qed.

(** X17: the summary shows the trees of the groups without a parent and
    nothing for the other entries of the list: every check of those
    trees, and a header for their named subgroups but never for a root
    itself, whatever its name. *)
Theorem printGroups_roots (groups : list Group) :
  let roots := filter (fun g => negb (HasParent g)) groups in
  checkLines (printGroups groups) =
  map (fun c => (if (0 <? Fails c)%Z then "✗" else "✓",
                 Passes c, Fails c, CheckName c))
      (flat_map checksOf roots) /\
  headerLines (printGroups groups) =
  flat_map (fun g => flat_map headersOf (Groups g)) roots.
Proof.
  unfold printGroups. induction groups as [|g rest [IHc IHh]]; simpl.
  - split; reflexivity.
  - destruct g as [name hasParent checks subgroups].
    destruct hasParent; simpl HasParent; cbv iota; simpl negb; cbv iota.
    + split; [exact IHc | exact IHh].
    + rewrite checkLines_app, headerLines_app, IHc, IHh,
        check_lines_of_tree, headers_of_tree.
      split.
      * simpl flat_map. now rewrite map_app.
      * simpl. now rewrite andb_false_r.
Qed.

(** ** The percentage of the check lines *)





(** ** Runner construction and inspection errors *)

Section MoreRunners.

Context {W : World} {I : Inspector}.

(** X18: the URL check of [makeRunner] is the test [looksLikeURL] makes:
    a source of type url whose content does not look like a URL is
    refused with "Failed to parse URL", and one whose content does is
    handed, parsed, to [simple.New]. *)
Theorem makeRunner_url_check (sd : SourceData) :
  SrcType sd = TypeURL ->
  (looksLikeURL (SrcData sd) = false ->
   makeRunner sd = Err (errors_New "Failed to parse URL")) /\
  (looksLikeURL (SrcData sd) = true ->
   exists u, url_Parse (TrimSpace (SrcData sd)) = Success u /\
             makeRunner sd = plain (simple_New u)).
Proof.
  intro Ht. unfold makeRunner, looksLikeURL. rewrite Ht. simpl.
  destruct (url_Parse (TrimSpace (SrcData sd))) as [u|].
  - destruct (Scheme u =? EmptyString); simpl; split; intro H;
      try discriminate; [reflexivity|].
    exists u. split; reflexivity.
  - split; intro H; [reflexivity|discriminate].
Qed.

(** X19: whatever [inspect] returns as an error is a [cli.ExitError] of
    code 1 (wrong number of arguments, a script that does not load, a
    config file that cannot be read or decoded), or the error of the
    source resolution as it is, or the error of the dump. *)
Theorem actionInspect_errors (cc : Context) (e : error) :
  actionInspect cc = Err e ->
  (exists msg, e = NewExitError msg 1) \/
  (exists arg, Args cc = [arg] /\
               getSrcData arg (flag_type cc) = Err e) \/
  (exists opts, dumpYAML opts = Err e).
Proof.
  unfold actionInspect.
  destruct (Args cc) as [|arg [|arg' more]].
  { intro H. injection H as <-. left. eexists. reflexivity. }
  2:{ intro H. injection H as <-. left. eexists. reflexivity. }
  destruct (getSrcData arg (flag_type cc)) as [srcdata|e'] eqn:Hsrc; simpl.
  2:{ intro H. injection H as <-. right. left. exists arg. now split. }
  destruct (inspectOptions cc srcdata) as [opts|e'] eqn:Hopts; simpl.
  { intro H. right. right. exists opts. exact H. }
  intro H. injection H as <-. left.
  unfold inspectOptions in Hopts.
  assert (Hread : forall o e0,
             readConfigs (flag_config cc) o = Err e0 ->
             exists msg, e0 = NewExitError msg 1).
  { generalize (flag_config cc). intro filenames.
    induction filenames as [|filename rest IH]; intros o e0; simpl.
    - discriminate.
    - destruct (ReadFile filename) as [data|].
      + destruct (yaml_Unmarshal data) as [configOpts|].
        * apply IH.
        * intro H. injection H as <-. eexists. reflexivity.
      + intro H. injection H as <-. eexists. reflexivity. }
  revert Hopts. destruct (SrcType srcdata =? TypeJS); simpl.
  - destruct js_New as [rt|]; simpl.
    + destruct (Load rt srcdata) as [exports|]; simpl.
      * apply Hread.
      * intro H. injection H as <-. eexists. reflexivity.
    + intro H. injection H as <-. eexists. reflexivity.
  - apply Hread.
Qed.

End MoreRunners.

(** ** The further properties on examples *)

Lemma no_equals_in_csv : ~ In "="%char (list_ascii_of_string "csv").
Proof. simpl. intros [H|[H|[H|[]]]]; discriminate. Defined.

Lemma parseCollectorString_round_trip_witness :
  ~ In "="%char (list_ascii_of_string "csv") /\
  parseCollectorString "csv=a=b" = Ok ("csv", "a=b").
Proof.
  split; [exact no_equals_in_csv|].
  exact (proj2 (parseCollectorString_round_trip "csv=a=b" "csv" "a=b")
               (conj eq_refl no_equals_in_csv)).
Defined.

Lemma parseCollectorString_malformed_witness :
  ~ In "="%char (list_ascii_of_string "csv") /\
  parseCollectorString "csv" =
  Err (errors_New "Malformed output; must be in the form 'type=url'").
Proof.
  split; [exact no_equals_in_csv|].
  exact (proj2 (parseCollectorString_malformed "csv" _)
               (conj no_equals_in_csv eq_refl)).
Defined.

Lemma makeCollector_known_kinds_witness :
  makeCollector (W := Fixture.urlFile) "json=out.json" =
  Ok ("json", "out.json") /\
  ((exists p, "json=out.json" = "influxdb=" ++ p /\
              influxdb_New (World := Fixture.urlFile) p =
              Success ("json", "out.json")) \/
   (exists p, "json=out.json" = "json=" ++ p /\
              json_New (World := Fixture.urlFile) p =
              Success ("json", "out.json"))).
Proof.
  split; [reflexivity|].
  exact (makeCollector_known_kinds (W := Fixture.urlFile) "json=out.json"
           ("json", "out.json") eq_refl).
Defined.

Lemma getSrcData_resolves_type_witness :
  getSrcData (W := Fixture.urlFile) "target.txt" TypeAuto =
  Ok {| SrcData := "http://example.com/ "; Filename := "target.txt";
        SrcType := TypeURL |} /\
  TypeURL <> TypeAuto.
Proof.
  split; [reflexivity|].
  exact (proj1 (getSrcData_resolves_type (W := Fixture.urlFile)
                  "target.txt" TypeAuto _ eq_refl)).
Defined.

Lemma getSrcData_labels_witness :
  "1+1" <> "-" /\ "1+1" <> cmdline /\
  getSrcData (W := Fixture.urlFile) "1+1" TypeJS =
  Ok {| SrcData := "1+1"; Filename := cmdline; SrcType := TypeJS |} /\
  (cmdline = cmdline -> "1+1" = "1+1").
Proof.
  split; [discriminate|]. split; [discriminate|]. split; [reflexivity|].
  exact (proj1 (proj2 (getSrcData_labels (W := Fixture.urlFile) "1+1"
                         TypeJS _ ltac:(discriminate) eq_refl)
                      ltac:(discriminate))).
Defined.

Lemma auto_url_reaches_simple_witness :
  getSrcData (W := Fixture.urlFile) "target.txt" TypeAuto =
  Ok {| SrcData := "http://example.com/ "; Filename := "target.txt";
        SrcType := TypeURL |} /\
  exists u,
    url_Parse (World := Fixture.urlFile) "http://example.com/" = Success u /\
    Scheme u <> EmptyString /\
    makeRunner (W := Fixture.urlFile)
      {| SrcData := "http://example.com/ "; Filename := "target.txt";
         SrcType := TypeURL |} = plain (simple_New u).
Proof.
  split; [reflexivity|].
  exact (auto_url_reaches_simple (W := Fixture.urlFile) "target.txt" _
           eq_refl eq_refl).
Defined.

Lemma low_config_read :
  configsRead (W := Fixture.scripted false) ["low.yaml"]
    [Fixture.vusOnly 20].
Proof.
  constructor; [exists "vus: 20"; split; reflexivity|]. constructor.
Defined.

Lemma readConfigs_first_failure_witness :
  configsRead (W := Fixture.scripted false) ["low.yaml"]
    [Fixture.vusOnly 20] /\
  readConfigs (W := Fixture.scripted false)
    ["low.yaml"; "missing.yaml"; "high.yaml"] zeroOptions =
  Err (NewExitError "open missing.yaml: no such file or directory" 1).
Proof.
  split; [exact low_config_read|].
  exact (readConfigs_first_failure (W := Fixture.scripted false)
           ["low.yaml"] [Fixture.vusOnly 20] "missing.yaml"
           "open missing.yaml: no such file or directory" ["high.yaml"]
           zeroOptions low_config_read (or_introl eq_refl)).
Defined.

Lemma mergeOptions_succeeds_iff_witness :
  exists configs,
    configsRead (W := Fixture.scripted false)
      (flag_config Fixture.runTwoConfigs) configs /\
    lockDefaults
      (fold_left Apply [Fixture.vusOnly 7; Fixture.vusOnly 20;
                        Fixture.vusOnly 30]
         (cliOptions Fixture.runTwoConfigs)) =
    lockDefaults
      (fold_left Apply (Fixture.vusOnly 7 :: configs)
         (cliOptions Fixture.runTwoConfigs)).
Proof.
  exact (proj1 (mergeOptions_succeeds_iff (W := Fixture.scripted false)
                  Fixture.runTwoConfigs
                  (Fixture.mkRunner (Fixture.vusOnly 7) None) _) eq_refl).
Defined.

Lemma mergeOptions_cli_defaults_witness :
  configsRead (W := Fixture.scripted false)
    (flag_config Fixture.runTwoConfigs)
    [Fixture.vusOnly 20; Fixture.vusOnly 30] /\
  exists final,
    mergeOptions (W := Fixture.scripted false) Fixture.runTwoConfigs
      (Fixture.mkRunner (Fixture.vusOnly 7) None) = Ok final /\
    value (Duration final) = "10s".
Proof.
  split; [exact two_configs_read|].
  destruct (mergeOptions_cli_defaults (W := Fixture.scripted false)
              Fixture.runTwoConfigs
              (Fixture.mkRunner (Fixture.vusOnly 7) None)
              [Fixture.vusOnly 20; Fixture.vusOnly 30] two_configs_read)
    as [final [Hmerge [_ [_ [Hduration _]]]]].
  exists final. split; [exact Hmerge|]. exact (Hduration eq_refl).
Defined.

Lemma inspect_accepts_unknown_type_witness :
  let cc := Fixture.run ["script.js"] (mkFlag 10 false) (mkFlag 0 false)
              "yaml" EmptyString ["low.yaml"] in
  Args cc = ["script.js"] /\ "script.js" <> "-" /\
  flag_type cc <> TypeAuto /\ flag_type cc <> TypeURL /\
  flag_type cc <> TypeJS /\
  actionInspect (W := Fixture.scripted false)
    (I := scriptedInspector false) cc = Ok tt /\
  actionRun (W := Fixture.scripted false) cc =
  Err (errors_New "Invalid type specified, see --help").
Proof.
  intro cc. split; [reflexivity|].
  repeat (split; [discriminate|]).
  exact (inspect_accepts_unknown_type (W := Fixture.scripted false)
           (I := scriptedInspector false) cc "script.js" eq_refl
           ltac:(discriminate) ltac:(discriminate) ltac:(discriminate)
           ltac:(discriminate)).
Defined.

Lemma scripted_runner_declares (tainted : bool) :
  forall rt sd exports r,
    Load (World := Fixture.scripted tainted) rt sd = Success exports ->
    js_NewRunner (World := Fixture.scripted tainted) rt exports = Success r ->
    GetOptions (World := Fixture.scripted tainted) r =
    loadedOptions (Inspector := scriptedInspector tainted) rt sd.
Proof.
  intros rt sd exports r Hload Hnew.
  change (match Fixture.lookup scriptedTable (SrcData sd) with
          | Some o => Success o
          | None => Failure "SyntaxError"
          end = Success exports) in Hload.
  change (Success (Fixture.mkRunner exports None) = Success r) in Hnew.
  change (Fixture.declared r =
          match Fixture.lookup scriptedTable (SrcData sd) with
          | Some o => o
          | None => zeroOptions
          end).
  injection Hnew as <-.
  destruct (Fixture.lookup scriptedTable (SrcData sd)) as [o|];
    [|discriminate].
  injection Hload as ->. reflexivity.
Defined.

Lemma inspect_agrees_with_run_witness :
  let srcdata := {| SrcData := "export let options = { vus: 7 };";
                    Filename := "script.js"; SrcType := TypeJS |} in
  makeRunner (W := Fixture.scripted false) srcdata =
  Ok (Fixture.mkRunner (Fixture.vusOnly 7) None) /\
  inspectOptions (W := Fixture.scripted false)
    (I := scriptedInspector false) Fixture.runVus5 srcdata =
  Ok (Fixture.vusOnly 7) /\
  exists final,
    mergeOptions (W := Fixture.scripted false) Fixture.runVus5
      (Fixture.mkRunner (Fixture.vusOnly 7) None) = Ok final /\
    value (VUs final) = 7.
Proof.
  intro srcdata. split; [reflexivity|]. split; [reflexivity|].
  eexists. split; [reflexivity|].
  exact (proj1 (proj2
           (inspect_agrees_with_run (W := Fixture.scripted false)
              (I := scriptedInspector false) Fixture.runVus5 srcdata
              (Fixture.mkRunner (Fixture.vusOnly 7) None) _ _
              (scripted_runner_declares false) eq_refl eq_refl eq_refl))
           eq_refl).
Defined.

Lemma thresholdIcon_meaning_witness :
  (exists th,
     In th [mkThreshold false; mkThreshold true; mkThreshold false] /\
     Failed th = true) /\
  thresholdIcon [mkThreshold false; mkThreshold true; mkThreshold false] =
  "✗".
Proof.
  assert (Hfailed : exists th,
             In th [mkThreshold false; mkThreshold true; mkThreshold false] /\
             Failed th = true).
  { exists (mkThreshold true). split; [right; left; reflexivity|reflexivity]. }
  split; [exact Hfailed|].
  exact (proj2 (proj1 (thresholdIcon_meaning _)) Hfailed).
Defined.

Lemma makeRunner_url_check_witness :
  let sd := {| SrcData := "1+1"; Filename := "sum.txt";
               SrcType := TypeURL |} in
  SrcType sd = TypeURL /\
  looksLikeURL (W := Fixture.urlFile) (SrcData sd) = false /\
  makeRunner (W := Fixture.urlFile) sd =
  Err (errors_New "Failed to parse URL").
Proof.
  intro sd. split; [reflexivity|]. split; [reflexivity|].
  exact (proj1 (makeRunner_url_check (W := Fixture.urlFile) sd eq_refl)
               eq_refl).
Defined.

Lemma actionInspect_errors_witness :
  let cc := Fixture.run ["script.js"] (mkFlag 10 false) (mkFlag 0 false)
              "auto" EmptyString ["missing.yaml"] in
  actionInspect (W := Fixture.scripted false)
    (I := scriptedInspector false) cc =
  Err (NewExitError "open missing.yaml: no such file or directory" 1) /\
  ((exists msg,
      NewExitError "open missing.yaml: no such file or directory" 1 =
      NewExitError msg 1) \/
   (exists arg,
      Args cc = [arg] /\
      getSrcData (W := Fixture.scripted false) arg (flag_type cc) =
      Err (NewExitError "open missing.yaml: no such file or directory" 1)) \/
   (exists opts,
      dumpYAML (Inspector := scriptedInspector false) opts =
      Err (NewExitError "open missing.yaml: no such file or directory" 1))).
Proof.
  intro cc. split; [reflexivity|].
  exact (actionInspect_errors (W := Fixture.scripted false)
           (I := scriptedInspector false) cc _ eq_refl).
Defined.

